(** * motor_control_ver1.3.2.py: a shallow embedding and its properties

    The program drives two DC motors through pigpio from single key
    presses.  This development embeds [MotorController], [KeyReader] and
    [main] and proves (or refutes) the statements of the specification.

    Conventions of the embedding

    - Python [int] is [Z]; Python [float] is [Q], the exact rational the
      literal denotes (the specification speaks of real numbers); equalities
      between floats are therefore stated with [==]. What is stated of
      floats rests on comparisons, [max] and [min], on signs, and on values
      the program holds exactly (the bounds 0.5 and 1.5, the products of the
      examples); sums and products are not rounded in [Q].
    - A [str] is its UTF-8 bytes; [str.lower] is [Py.lower], exact on ASCII
      and on the one character outside ASCII that it sends into ASCII.
    - A [dict] is an insertion-ordered association list: [__init__] iterates
      over [pins.items()], so the order is observable.
    - The controller object, the terminal and the pigpio handle are mutable
      and shared; they are the fields of one [world] that every method
      threads.  Calls into pigpio, [time.sleep] and [print] are logged, in
      order, in [calls].
    - A method is a computation [M A]: it returns, raises, or is still
      waiting for a key ([Blocked]) when the supplied input is used up. *)

From Stdlib Require Import ZArith QArith Qminmax Qabs String Ascii List Bool Lia Lqa.
Import ListNotations.

Open Scope Z_scope.
Open Scope string_scope.

(** ** Python built-ins used by the program *)

Module Py.

(** [a > b], at the two numeric types the program compares. *)
Class Gt (A : Type) := gt : A -> A -> bool.

#[global] Instance Gt_int : Gt Z := fun a b => (b <? a)%Z.
#[global] Instance Gt_float : Gt Q := fun a b => negb (Qle_bool a b).

(** [max(a, b)]: the first argument is kept unless the second is greater. *)
Definition max {A} `{Gt A} (a b : A) : A := if gt b a then b else a.

(** [min(a, b)]: the first argument is kept unless the second is smaller. *)
Definition min {A} `{Gt A} (a b : A) : A := if gt a b then b else a.

(** A [str] is held as its UTF-8 bytes.

    [str.lower()]: 'A'..'Z' go to 'a'..'z'; U+212A KELVIN SIGN (the bytes
    226 132 170), the one character outside ASCII whose lower case is an
    ASCII character, goes to 'k'. Every other character outside ASCII is
    kept: its lower case is not ASCII either, so it stays different from
    every key the program compares with. *)
Definition lower_char (c : ascii) : ascii :=
  let n := N_of_ascii c in
  if ((65 <=? n) && (n <=? 90))%N then ascii_of_N (n + 32) else c.

Definition is_KELVIN_SIGN (c0 c1 c2 : ascii) : bool :=
  ((N_of_ascii c0 =? 226) && (N_of_ascii c1 =? 132) && (N_of_ascii c2 =? 170))%N.

Fixpoint lower (s : string) : string :=
  match s with
  | EmptyString => EmptyString
  | String c0 rest =>
      match rest with
      | String c1 (String c2 rest') =>
          if is_KELVIN_SIGN c0 c1 c2 then String "k" (lower rest')
          else String (lower_char c0) (lower rest)
      | _ => String (lower_char c0) (lower rest)
      end
  end.

(** [dict]: keys are strings; insertion order is kept. *)
Definition dict (V : Type) := list (string * V).

(** [d.get(k)] *)
Fixpoint get {V} (d : dict V) (k : string) : option V :=
  match d with
  | [] => None
  | (k', v) :: rest => if String.eqb k k' then Some v else get rest k
  end.

(** [d.items()] *)
Definition items {V} (d : dict V) : list (string * V) := d.

End Py.

(** ** The world the program acts on *)

(** Exceptions that reach the model: a failed [d[k]], and what
    [sys.stdin.read] can raise while it waits (Ctrl-C in cbreak mode). *)
Inductive exn :=
| KeyError (key : string)
| KeyboardInterrupt.

(** Lines written by [print]: the value shown stands for the line. *)
Inductive line :=
| Power_line (power : Z)                 (* f"Power: {self.power}%" *)
| Balance_line (left right : Q)          (* f"Balance: L=..., R=..." *)
| Control_Started
| Exited.

(** Calls that leave the program, in the order they are made:
    [pigpio_pi] is [pigpio.pi()], [pi_stop] is [pi.stop()]. *)
Inductive call :=
| set_mode_OUTPUT (pin : Z)
| set_PWM_frequency (pin freq : Z)
| set_PWM_range (pin range : Z)
| set_PWM_dutycycle (pin : Z) (duty : Q)
| pi_stop
| pigpio_pi
| time_sleep (seconds : Q)
| print (l : line).

(** The terminal attributes [termios.tcgetattr] reads: the two local
    flags [tty.setcbreak] clears. *)
Record termios := { ECHO : bool; ICANON : bool }.

Record MotorController := {
  pins : Py.dict Z;
  freq : Z;
  pwm_range : Z;
  power : Z;
  balance : Q * Q          (* the two-element list [L, R] *)
}.

Record world := {
  self : MotorController;
  tty : termios;
  calls : list call
}.

Definition set_self (c : MotorController) (w : world) : world :=
  {| self := c; tty := tty w; calls := calls w |}.

Definition set_tty (t : termios) (w : world) : world :=
  {| self := self w; tty := t; calls := calls w |}.

Definition log (c : call) (w : world) : world :=
  {| self := self w; tty := tty w; calls := calls w ++ [c] |}.

(** ** Computations *)

Inductive result (A : Type) :=
| Return (a : A)
| Raise (e : exn)
| Blocked.

Arguments Return {A} a.
Arguments Raise {A} e.
Arguments Blocked {A}.

Definition M (A : Type) := world -> result A * world.

Definition ret {A} (a : A) : M A := fun w => (Return a, w).

Definition raise {A} (e : exn) : M A := fun w => (Raise e, w).

Definition bind {A B} (m : M A) (k : A -> M B) : M B := fun w =>
  match m w with
  | (Return a, w') => k a w'
  | (Raise e, w') => (Raise e, w')
  | (Blocked, w') => (Blocked, w')
  end.

Declare Scope py_scope.
Delimit Scope py_scope with py.
Notation "x <- m ;; k" := (bind m (fun x => k))
  (at level 61, m at next level, right associativity) : py_scope.
Notation "m ;; k" := (bind m (fun _ => k))
  (at level 61, right associativity) : py_scope.
Open Scope py_scope.

Definition emit (c : call) : M unit := fun w => (Return tt, log c w).

Definition read {A} (f : MotorController -> A) : M A := fun w => (Return (f (self w)), w).

Definition write (f : MotorController -> MotorController) : M unit :=
  fun w => (Return tt, set_self (f (self w)) w).

(** [d[k]] *)
Definition subscript {V} (d : Py.dict V) (k : string) : M V :=
  match Py.get d k with
  | Some v => ret v
  | None => raise (KeyError k)
  end.

(** ** class MotorController *)

(** The body of the [for] loop of [__init__], one pin after the other. *)
Definition configure (freq pwm_range : Z) (item : string * Z) : list call :=
  let pin_num := snd item in
  [set_mode_OUTPUT pin_num; set_PWM_frequency pin_num freq; set_PWM_range pin_num pwm_range].

(** [MotorController(pi, pins, freq, pwm_range)]: the calls made on [pi]
    and the new object. *)
Definition __init__ (pins : Py.dict Z) (freq pwm_range : Z) : list call * MotorController :=
  (flat_map (configure freq pwm_range) (Py.items pins),
   {| pins := pins; freq := freq; pwm_range := pwm_range;
      power := 80; balance := (1, 1)%Q |}).

Definition _apply_pwm (forward_pin backward_pin : Z) (speed : Q) : M unit :=
  let duty_forward := Py.max 0%Q speed in
  let duty_backward := Py.max 0%Q (- speed)%Q in
  emit (set_PWM_dutycycle forward_pin duty_forward) ;;
  emit (set_PWM_dutycycle backward_pin duty_backward).

Definition set_speed (left_speed right_speed : Q) : M unit :=
  b <- read balance ;;
  let left_actual := (left_speed * fst b)%Q in
  let right_actual := (right_speed * snd b)%Q in
  p <- read pins ;;
  L_f <- subscript p "L_f" ;;
  L_b <- subscript p "L_b" ;;
  _apply_pwm L_f L_b left_actual ;;
  R_f <- subscript p "R_f" ;;
  R_b <- subscript p "R_b" ;;
  _apply_pwm R_f R_b right_actual.

Definition stop : M unit := set_speed 0 0.

Definition forward : M unit :=
  p <- read power ;; set_speed (inject_Z p) (inject_Z p).

Definition backward : M unit :=
  p <- read power ;; set_speed (inject_Z (- p)) (inject_Z (- p)).

Definition turn_left : M unit :=
  p <- read power ;; set_speed (inject_Z (- p)) (inject_Z p).

Definition turn_right : M unit :=
  p <- read power ;; set_speed (inject_Z p) (inject_Z (- p)).

Definition pivot_left : M unit :=
  p <- read power ;; set_speed (inject_Z p) 0.

Definition pivot_right : M unit :=
  p <- read power ;; set_speed 0 (inject_Z p).

Definition with_power (x : Z) (c : MotorController) : MotorController :=
  {| pins := pins c; freq := freq c; pwm_range := pwm_range c;
     power := x; balance := balance c |}.

Definition with_balance (b : Q * Q) (c : MotorController) : MotorController :=
  {| pins := pins c; freq := freq c; pwm_range := pwm_range c;
     power := power c; balance := b |}.

Definition adjust_power (delta : Z) : M unit :=
  p <- read power ;;
  write (with_power (Py.max 0 (Py.min 100 (p + delta)))) ;;
  p' <- read power ;;
  emit (print (Power_line p')).

Definition adjust_balance (delta : Q) : M unit :=
  b <- read balance ;;
  let new_left := (fst b + delta)%Q in
  let new_right := (snd b - delta)%Q in
  write (with_balance (Py.max (1 # 2) (Py.min (3 # 2) new_left), snd b)) ;;
  b1 <- read balance ;;
  write (with_balance (fst b1, Py.max (1 # 2) (Py.min (3 # 2) new_right))) ;;
  b2 <- read balance ;;
  emit (print (Balance_line (fst b2) (snd b2))).

(** ** class KeyReader *)

(** What one [sys.stdin.read(1)] delivers: a string of at most one
    character (empty when nothing is there), or an exception. *)
Inductive stdin_read :=
| chars (ch : string)
| interrupted.

Record KeyReader := { fd : Z; orig : termios }.

(** [tty.setcbreak(fd)] *)
Definition setcbreak (t : termios) : termios := {| ECHO := false; ICANON := false |}.

Definition __enter__ : M KeyReader := fun w =>
  let fd := 0 in
  let orig := tty w in
  (Return {| fd := fd; orig := orig |}, set_tty (setcbreak (tty w)) w).

(** [termios.tcsetattr(self.fd, termios.TCSADRAIN, self.orig)]; the method
    returns [None], so an exception that left the block goes on. *)
Definition __exit__ (reader : KeyReader) : M unit := fun w =>
  (Return tt, set_tty (orig reader) w).

(** [get], with the [str.lower] it calls as a parameter. *)
Definition get_by (lower : string -> string)
  (reader : KeyReader) (input : stdin_read) : M string :=
  match input with
  | chars ch => ret (lower ch)
  | interrupted => raise KeyboardInterrupt
  end.

Definition get : KeyReader -> stdin_read -> M string := get_by Py.lower.

(** [with KeyReader() as reader: body] *)
Definition with_KeyReader {A} (body : KeyReader -> M A) : M A := fun w =>
  match __enter__ w with
  | (Return reader, w1) =>
      match body reader w1 with
      | (Return a, w2) => (__exit__ reader ;; ret a) w2
      | (Raise e, w2) => (__exit__ reader ;; raise e) w2
      | (Blocked, w2) => (Blocked, w2)
      end
  | (Raise e, w1) => (Raise e, w1)
  | (Blocked, w1) => (Blocked, w1)
  end.

(** ** main *)

Definition main_pins : Py.dict Z :=
  [("L_A1", 12); ("L_A2", 13); ("R_B1", 18); ("R_B2", 19)].

Definition actions : Py.dict (M unit) :=
  [("w", forward);
   ("s", backward);
   ("a", turn_left);
   ("d", turn_right);
   ("q", pivot_left);
   ("e", pivot_right);
   ("k", adjust_power 5);
   ("l", adjust_power (-5));
   (",", adjust_balance (1 # 20));
   (".", adjust_balance (- (1 # 20)));
   (" ", stop)].

Inductive flow := continue | break.

(** One turn of [while True], on what [sys.stdin.read(1)] delivers, with
    the [str.lower] of [reader.get()] as a parameter. *)
Definition iteration_by (lower : string -> string)
  (reader : KeyReader) (input : stdin_read) : M flow :=
  key <- get_by lower reader input ;;
  if String.eqb key "" then
    emit (time_sleep (1 # 20)) ;; ret continue
  else if String.eqb key "x" then
    ret break
  else
    let action := Py.get actions key in
    match action with
    | Some act => act ;; ret continue
    | None => ret continue
    end.

Definition iteration : KeyReader -> stdin_read -> M flow := iteration_by Py.lower.

(** [while True] over the reads supplied so far; when they are used up
    the loop is waiting in [reader.get()]. *)
Fixpoint while_True (reader : KeyReader) (stdin : list stdin_read) : M unit :=
  match stdin with
  | [] => fun w => (Blocked, w)
  | input :: later =>
      f <- iteration reader input ;;
      match f with
      | break => ret tt
      | continue => while_True reader later
      end
  end.

(** [pi = pigpio.pi()] and [controller = MotorController(pi, pins)]. *)
Definition start (pins : Py.dict Z) (t : termios) : world :=
  let (configured, controller) := __init__ pins 50 100 in
  {| self := controller; tty := t; calls := pigpio_pi :: configured |}.

(** From the banner to the end of the [with] block. *)
Definition session (stdin : list stdin_read) : M unit :=
  emit (print Control_Started) ;;
  with_KeyReader (fun reader => while_True reader stdin).

(** The lines after the [with] block. *)
Definition shutdown : M unit :=
  stop ;;
  emit pi_stop ;;
  emit (print Exited).

(** [main] with its [pins] literal as a parameter. *)
Definition main_with (pins : Py.dict Z) (t : termios) (stdin : list stdin_read)
  : result unit * world :=
  (session stdin ;; shutdown) (start pins t).

Definition main : termios -> list stdin_read -> result unit * world :=
  main_with main_pins.

(** ** Vocabulary of the specification *)

Module Spec.

(** [clamp(x, lo, hi)] on integers and on reals. *)
Definition clamp_int (x lo hi : Z) : Z :=
  if (x <? lo)%Z then lo else if (hi <? x)%Z then hi else x.

Definition clamp (x lo hi : Q) : Q :=
  match x ?= lo with
  | Lt => lo
  | _ => match x ?= hi with Gt => hi | _ => x end
  end%Q.

(** The seven motion commands and the table of their signed speeds. *)
Inductive command :=
| Forward | Backward | Turn_left | Turn_right | Pivot_left | Pivot_right | Stop.

Definition signed_speeds (c : command) (p : Q) : Q * Q :=
  match c with
  | Forward => (p, p)
  | Backward => (- p, - p)
  | Turn_left => (- p, p)
  | Turn_right => (p, - p)
  | Pivot_left => (p, 0)
  | Pivot_right => (0, p)
  | Stop => (0, 0)
  end%Q.

(** The canonical symbols of the dispatch table, the exit signal included. *)
Definition recognized : list string :=
  ["w"; "s"; "a"; "d"; "q"; "e"; "k"; "l"; ","; "."; " "; "x"].

End Spec.

(** The method of [MotorController] a motion command names. *)
Definition method (c : Spec.command) : M unit :=
  match c with
  | Spec.Forward => forward
  | Spec.Backward => backward
  | Spec.Turn_left => turn_left
  | Spec.Turn_right => turn_right
  | Spec.Pivot_left => pivot_left
  | Spec.Pivot_right => pivot_right
  | Spec.Stop => stop
  end.

(** [w] after further calls, the controller and the terminal untouched. *)
Definition after (w : world) (cs : list call) : world :=
  {| self := self w; tty := tty w; calls := calls w ++ cs |}.

(** Calls made on the pigpio handle. *)
Definition on_pi (c : call) : bool :=
  match c with
  | time_sleep _ | print _ => false
  | _ => true
  end.

(** A pins mapping that has the four keys [set_speed] subscripts. *)
Definition wired (p : Py.dict Z) (L_f L_b R_f R_b : Z) : Prop :=
  Py.get p "L_f" = Some L_f /\ Py.get p "L_b" = Some L_b /\
  Py.get p "R_f" = Some R_f /\ Py.get p "R_b" = Some R_b.

Definition drive_pins : Py.dict Z :=
  [("L_f", 12); ("L_b", 13); ("R_f", 18); ("R_b", 19)].

Definition cooked : termios := {| ECHO := true; ICANON := true |}.

(** The same key, [n] times. *)
Definition presses (key : string) (n : nat) : list stdin_read :=
  repeat (chars key) n.

(** U+212A KELVIN SIGN, as a [str]. *)
Definition KELVIN_SIGN : string :=
  String (ascii_of_N 226) (String (ascii_of_N 132) (String (ascii_of_N 170) "")).

(** Four times 'k', ten times ',', then 'w': full power, the balance
    trimmed to the left as far as it goes, forward. *)
Definition full_power_left_trim : list stdin_read :=
  (presses "k" 4 ++ presses "," 10 ++ [chars "w"])%list.

(** A computation that leaves the pins mapping and the terminal alone and
    does not release the pigpio handle. *)
Definition steady {A} (m : M A) : Prop :=
  forall w : world,
    pins (self (snd (m w))) = pins (self w) /\
    tty (snd (m w)) = tty w /\
    exists cs : list call,
      calls (snd (m w)) = (calls w ++ cs)%list /\ ~ In pi_stop cs.

(** What the specification expects to have happened once the loop is left:
    a zero duty cycle written to every pin, the handle released, the
    terminal as it was found. *)
Definition cleaned_up (pins : Py.dict Z) (t : termios) (w : world) : Prop :=
  (forall pin : Z, In pin (map snd pins) ->
     exists d : Q, In (set_PWM_dutycycle pin d) (calls w) /\ (d == 0)%Q) /\
  In pi_stop (calls w) /\
  tty w = t.

(** The controller state within the bounds the two adjust methods keep. *)
Definition in_range (c : MotorController) : Prop :=
  0 <= power c <= 100 /\ (5 | power c) /\
  (1 # 2 <= fst (balance c) <= 3 # 2)%Q /\
  (1 # 2 <= snd (balance c) <= 3 # 2)%Q.

(** A duty cycle between 0 and 150; any other call passes. *)
Definition duty_in_bounds (c : call) : Prop :=
  match c with
  | set_PWM_dutycycle _ d => (0 <= d <= 150)%Q
  | _ => True
  end.

(** A write of a duty cycle. *)
Definition is_duty (c : call) : bool :=
  match c with
  | set_PWM_dutycycle _ _ => true
  | _ => false
  end.

(** The calls [main] makes outside the methods of the controller. *)
Definition made_by_main (c : call) : bool :=
  match c with
  | time_sleep _ | print Control_Started | print Exited | pi_stop => true
  | _ => false
  end.

(** The power of the last power line among [cs], or [p] when there is none;
    the same for the balance. *)
Fixpoint shown_power (cs : list call) (p : Z) : Z :=
  match cs with
  | [] => p
  | print (Power_line x) :: rest => shown_power rest x
  | _ :: rest => shown_power rest p
  end.

Fixpoint shown_balance (cs : list call) (b : Q * Q) : Q * Q :=
  match cs with
  | [] => b
  | print (Balance_line l r) :: rest => shown_balance rest (l, r)
  | _ :: rest => shown_balance rest b
  end.

(** A read that ends the loop: a character whose lower case is 'x'. *)
Definition exit_key (input : stdin_read) : bool :=
  match input with
  | chars ch => String.eqb (Py.lower ch) "x"
  | interrupted => false
  end.

(** [w'] is [w] after four duty cycles, of the given values, written to the
    four pins in the order of [set_speed]. *)
Definition drives (w w' : world) (L_f L_b R_f R_b : Z) (dLf dLb dRf dRb : Q) : Prop :=
  exists a b c d : Q,
    w' = after w [set_PWM_dutycycle L_f a; set_PWM_dutycycle L_b b;
                  set_PWM_dutycycle R_f c; set_PWM_dutycycle R_b d] /\
    (a == dLf)%Q /\ (b == dLb)%Q /\ (c == dRf)%Q /\ (d == dRb)%Q.

(** ** Comparison and clamping *)

Lemma gt_int_spec (a b : Z) : Py.gt a b = true <-> b < a.
Proof. unfold Py.gt, Py.Gt_int. apply Z.ltb_lt. Qed.

Lemma gt_float_spec (a b : Q) : Py.gt a b = true <-> (b < a)%Q.
Proof.
  unfold Py.gt, Py.Gt_float. rewrite negb_true_iff.
  destruct (Qle_bool a b) eqn:E.
  - apply Qle_bool_iff in E. split; [discriminate | intro H; lra].
  - split; [intros _ | reflexivity].
    destruct (Qlt_le_dec b a) as [H | H]; [exact H |].
    apply Qle_bool_iff in H. congruence.
Qed.

Lemma gt_float_false (a b : Q) : Py.gt a b = false <-> (a <= b)%Q.
Proof.
  unfold Py.gt, Py.Gt_float. rewrite negb_false_iff. apply Qle_bool_iff.
Qed.

Lemma max_int (a b : Z) : Py.max a b = Z.max a b.
Proof.
  unfold Py.max. destruct (Py.gt b a) eqn:E.
  - apply gt_int_spec in E. lia.
  - assert (~ a < b) by (rewrite <- gt_int_spec; congruence). lia.
Qed.

Lemma min_int (a b : Z) : Py.min a b = Z.min a b.
Proof.
  unfold Py.min. destruct (Py.gt a b) eqn:E.
  - apply gt_int_spec in E. lia.
  - assert (~ b < a) by (rewrite <- gt_int_spec; congruence). lia.
Qed.

Lemma max_float_cases (a b : Q) :
  ((a < b)%Q /\ Py.max a b = b) \/ ((b <= a)%Q /\ Py.max a b = a).
Proof.
  unfold Py.max. destruct (Py.gt b a) eqn:E.
  - left. apply gt_float_spec in E. auto.
  - right. apply gt_float_false in E. auto.
Qed.

Lemma min_float_cases (a b : Q) :
  ((b < a)%Q /\ Py.min a b = b) \/ ((a <= b)%Q /\ Py.min a b = a).
Proof.
  unfold Py.min. destruct (Py.gt a b) eqn:E.
  - left. apply gt_float_spec in E. auto.
  - right. apply gt_float_false in E. auto.
Qed.

Lemma clamp_int_spec (x lo hi : Z) :
  lo <= hi -> Spec.clamp_int x lo hi = Z.max lo (Z.min hi x).
Proof.
  intros H. unfold Spec.clamp_int.
  destruct (Z.ltb_spec x lo); [lia |].
  destruct (Z.ltb_spec hi x); lia.
Qed.

Lemma clamp_cases (x lo hi : Q) :
  ((x < lo)%Q /\ Spec.clamp x lo hi = lo) \/
  ((lo <= x)%Q /\ (hi < x)%Q /\ Spec.clamp x lo hi = hi) \/
  ((lo <= x)%Q /\ (x <= hi)%Q /\ Spec.clamp x lo hi = x).
Proof.
  unfold Spec.clamp.
  destruct (x ?= lo)%Q eqn:E1.
  - apply Qeq_alt in E1.
    destruct (x ?= hi)%Q eqn:E2.
    + apply Qeq_alt in E2. right. right. repeat split; lra.
    + apply Qlt_alt in E2. right. right. repeat split; lra.
    + apply Qgt_alt in E2. right. left. repeat split; lra.
  - apply Qlt_alt in E1. left. auto.
  - apply Qgt_alt in E1.
    destruct (x ?= hi)%Q eqn:E2.
    + apply Qeq_alt in E2. right. right. repeat split; lra.
    + apply Qlt_alt in E2. right. right. repeat split; lra.
    + apply Qgt_alt in E2. right. left. repeat split; lra.
Qed.

(** What the two nested calls [max(lo, min(hi, x))] of the program return. *)
Lemma max_min_clamp (x lo hi : Q) :
  (lo <= hi)%Q -> (Py.max lo (Py.min hi x) == Spec.clamp x lo hi)%Q.
Proof.
  intros H.
  destruct (clamp_cases x lo hi) as [[? ->] | [(? & ? & ->) | (? & ? & ->)]];
    destruct (min_float_cases hi x) as [[? ->] | [? ->]];
    match goal with
    | |- (Py.max ?a ?b == _)%Q =>
        destruct (max_float_cases a b) as [[? ->] | [? ->]]
    end; lra.
Qed.

(** ** Running the small steps *)

Lemma after_nil (w : world) : after w [] = w.
Proof. destruct w. unfold after. simpl. now rewrite app_nil_r. Qed.

Lemma log_after (w : world) (cs : list call) (c : call) :
  log c (after w cs) = after w (cs ++ [c]).
Proof. unfold log, after. simpl. now rewrite app_assoc. Qed.

Lemma log_is_after (w : world) (c : call) : log c w = after w [c].
Proof. reflexivity. Qed.

Lemma after_after (w : world) (cs ds : list call) :
  after (after w cs) ds = after w (cs ++ ds).
Proof. unfold after. simpl. now rewrite app_assoc. Qed.

Lemma _apply_pwm_runs (forward_pin backward_pin : Z) (speed : Q) (w : world) :
  _apply_pwm forward_pin backward_pin speed w =
  (Return tt, after w [set_PWM_dutycycle forward_pin (Py.max 0%Q speed);
                       set_PWM_dutycycle backward_pin (Py.max 0%Q (- speed)%Q)]).
Proof.
  unfold _apply_pwm, bind, emit. now rewrite !log_is_after, after_after.
Qed.

(** ** adjust_power and adjust_balance *)

(** C4. [adjust_power] is the saturating clamp: from a power in [0,100] and
    with any integer delta it returns normally and leaves
    [clamp(p + delta, 0, 100)], a value in [0,100]; from the initial power 80
    three presses of 'k' leave 95 and a fourth leaves 100. *)
Theorem adjust_power_saturates (w : world) (delta : Z) :
  0 <= power (self w) <= 100 ->
  (fst (adjust_power delta w) = Return tt /\
   power (self (snd (adjust_power delta w))) =
     Spec.clamp_int (power (self w) + delta) 0 100 /\
   0 <= power (self (snd (adjust_power delta w))) <= 100) /\
  (forall t : termios,
     power (self (start main_pins t)) = 80 /\
     power (self (snd (main t (presses "k" 3)))) = 95 /\
     power (self (snd (main t (presses "k" 4)))) = 100).
Proof.
  intros Hp. split.
  - unfold adjust_power, bind, read, write, emit. simpl.
    rewrite max_int, min_int, clamp_int_spec by lia.
    repeat split; lia.
  - intros t. repeat split.
Qed.

Lemma adjust_power_saturates_witness :
  power (self (snd (adjust_power 5 (start main_pins cooked)))) =
  Spec.clamp_int (80 + 5) 0 100.
Proof.
  destruct (adjust_power_saturates (start main_pins cooked) 5) as [(_ & E & _) _].
  - simpl. lia.
  - exact E.
Defined.

(** C5. [adjust_balance] clamps each side on its own, from the values
    before the call: from a balance (L, R) within [0.5,1.5] and with any
    delta it leaves (clamp(L + delta), clamp(R - delta)), and the new right
    factor is the same whatever the left factor was. *)
Theorem adjust_balance_clamps_each_side (w : world) (delta : Q) :
  let L := fst (balance (self w)) in
  let R := snd (balance (self w)) in
  (1 # 2 <= L <= 3 # 2)%Q ->
  (1 # 2 <= R <= 3 # 2)%Q ->
  fst (adjust_balance delta w) = Return tt /\
  (fst (balance (self (snd (adjust_balance delta w))))
     == Spec.clamp (L + delta) (1 # 2) (3 # 2))%Q /\
  (snd (balance (self (snd (adjust_balance delta w))))
     == Spec.clamp (R - delta) (1 # 2) (3 # 2))%Q /\
  (forall L2 : Q,
     snd (balance (self (snd (adjust_balance delta
            (set_self (with_balance (L2, R) (self w)) w))))) =
     snd (balance (self (snd (adjust_balance delta w))))).
Proof.
  intros L R HL HR.
  unfold adjust_balance, bind, read, write, emit. simpl.
  repeat split.
  - apply max_min_clamp. lra.
  - apply max_min_clamp. lra.
Qed.

Lemma adjust_balance_clamps_each_side_witness :
  (fst (balance (self (snd (adjust_balance (1 # 20) (start main_pins cooked)))))
     == Spec.clamp (1 + (1 # 20)) (1 # 2) (3 # 2))%Q.
Proof.
  destruct (adjust_balance_clamps_each_side (start main_pins cooked) (1 # 20))
    as (_ & E & _).
  - simpl. lra.
  - simpl. lra.
  - exact E.
Defined.

(** ** Duty cycles *)

(** C8. The two duty cycles [_apply_pwm] writes depend on the signed speed
    alone: they are max(0, s) and max(0, -s); exactly one is nonzero when
    s is not 0, both are 0 when s is 0, and neither exceeds |s|. *)
Theorem duty_cycles_of_signed_speed (s : Q) :
  exists duty_forward duty_backward : Q,
    (forall (forward_pin backward_pin : Z) (w : world),
       _apply_pwm forward_pin backward_pin s w =
       (Return tt, after w [set_PWM_dutycycle forward_pin duty_forward;
                            set_PWM_dutycycle backward_pin duty_backward])) /\
    (duty_forward == Qmax 0 s)%Q /\
    (duty_backward == Qmax 0 (- s))%Q /\
    (~ (s == 0)%Q ->
       (~ (duty_forward == 0)%Q /\ (duty_backward == 0)%Q) \/
       ((duty_forward == 0)%Q /\ ~ (duty_backward == 0)%Q)) /\
    ((s == 0)%Q -> (duty_forward == 0)%Q /\ (duty_backward == 0)%Q) /\
    (duty_forward <= Qabs s)%Q /\ (duty_backward <= Qabs s)%Q.
Proof.
  exists (Py.max 0%Q s), (Py.max 0%Q (- s)%Q).
  split; [intros; apply _apply_pwm_runs |].
  destruct (max_float_cases 0 s) as [[Hs ->] | [Hs ->]];
    destruct (max_float_cases 0 (- s)) as [[Hn ->] | [Hn ->]];
    try (exfalso; lra).
  - rewrite (Q.max_r 0 s), (Q.max_l 0 (- s)), (Qabs_pos s) by lra.
    repeat split; try lra.
  - rewrite (Q.max_l 0 s), (Q.max_r 0 (- s)), (Qabs_neg s) by lra.
    repeat split; try lra.
  - assert (s == 0)%Q by lra.
    rewrite (Q.max_l 0 s), (Q.max_l 0 (- s)) by lra.
    repeat split; try lra; try apply Qabs_nonneg.
Qed.

Lemma duty_cycles_of_signed_speed_witness :
  exists duty_forward duty_backward : Q,
    _apply_pwm 12 13 (- (64)) (start drive_pins cooked) =
    (Return tt, after (start drive_pins cooked)
                  [set_PWM_dutycycle 12 duty_forward;
                   set_PWM_dutycycle 13 duty_backward]) /\
    ((~ (duty_forward == 0)%Q /\ (duty_backward == 0)%Q) \/
     ((duty_forward == 0)%Q /\ ~ (duty_backward == 0)%Q)).
Proof.
  destruct (duty_cycles_of_signed_speed (- (64)))
    as (df & db & Hrun & _ & _ & Hone & _).
  exists df, db. split; [apply Hrun |].
  apply Hone. intros H. discriminate H.
Defined.

(** ** set_speed and the motion commands *)

Lemma set_speed_runs (left_speed right_speed : Q) (w : world) (L_f L_b R_f R_b : Z) :
  wired (pins (self w)) L_f L_b R_f R_b ->
  let left_actual := (left_speed * fst (balance (self w)))%Q in
  let right_actual := (right_speed * snd (balance (self w)))%Q in
  set_speed left_speed right_speed w =
  (Return tt, after w [set_PWM_dutycycle L_f (Py.max 0%Q left_actual);
                       set_PWM_dutycycle L_b (Py.max 0%Q (- left_actual)%Q);
                       set_PWM_dutycycle R_f (Py.max 0%Q right_actual);
                       set_PWM_dutycycle R_b (Py.max 0%Q (- right_actual)%Q)]).
Proof.
  intros (HLf & HLb & HRf & HRb). simpl.
  unfold set_speed, bind, read, subscript.
  rewrite HLf, HLb. unfold ret at 1 2.
  rewrite _apply_pwm_runs. simpl.
  rewrite HRf, HRb. unfold ret.
  rewrite _apply_pwm_runs, after_after. reflexivity.
Qed.

Lemma set_speed_keeps_self (left_speed right_speed : Q) (w : world) :
  self (snd (set_speed left_speed right_speed w)) = self w.
Proof.
  unfold set_speed, bind, read, subscript, ret, raise.
  repeat (rewrite _apply_pwm_runs; cbn [self after]);
    repeat match goal with
      | |- context [Py.get ?d ?k] => destruct (Py.get d k)
      end; try reflexivity;
    repeat (rewrite _apply_pwm_runs; cbn [self after snd]); reflexivity.
Qed.

Lemma set_speed_unwired (left_speed right_speed : Q) (w : world) :
  Py.get (pins (self w)) "L_f" = None ->
  set_speed left_speed right_speed w = (Raise (KeyError "L_f"), w).
Proof.
  intros H. unfold set_speed, bind, read, subscript. now rewrite H.
Qed.

Lemma method_is_set_speed (c : Spec.command) (w : world) :
  method c w =
  set_speed (fst (Spec.signed_speeds c (inject_Z (power (self w)))))
            (snd (Spec.signed_speeds c (inject_Z (power (self w))))) w.
Proof. destruct c; reflexivity. Qed.

(** C6. Each motion command asks [set_speed] for the signed speeds of the
    table, in proportion to the power p: forward (+p, +p), backward
    (-p, -p), turn_left (-p, +p), turn_right (+p, -p), pivot_left (+p, 0),
    pivot_right (0, +p), stop (0, 0). *)
Theorem motion_commands_request_signed_speeds (w : world) :
  let p := inject_Z (power (self w)) in
  forward w = set_speed p p w /\
  backward w = set_speed (- p) (- p) w /\
  turn_left w = set_speed (- p) p w /\
  turn_right w = set_speed p (- p) w /\
  pivot_left w = set_speed p 0 w /\
  pivot_right w = set_speed 0 p w /\
  stop w = set_speed 0 0 w /\
  (forall c : Spec.command,
     method c w = set_speed (fst (Spec.signed_speeds c p))
                            (snd (Spec.signed_speeds c p)) w).
Proof.
  repeat split. intros c. apply method_is_set_speed.
Qed.

(** X17. The balance multiplies the signed speeds after the power has
    chosen them: on a controller whose pins mapping has the keys
    [set_speed] subscripts, every motion command writes the duty cycles of
    left_speed * left_factor and right_speed * right_factor; with power 80
    and balance (1.2, 0.8), forward gives the actual speeds (96, 64), the
    forward duties 96 and 64 and the backward duties 0. *)
Theorem balance_scales_signed_speeds
  (c : Spec.command) (w : world) (L_f L_b R_f R_b : Z) :
  wired (pins (self w)) L_f L_b R_f R_b ->
  let p := inject_Z (power (self w)) in
  let left_actual := (fst (Spec.signed_speeds c p) * fst (balance (self w)))%Q in
  let right_actual := (snd (Spec.signed_speeds c p) * snd (balance (self w)))%Q in
  method c w =
    (Return tt, after w [set_PWM_dutycycle L_f (Py.max 0%Q left_actual);
                         set_PWM_dutycycle L_b (Py.max 0%Q (- left_actual)%Q);
                         set_PWM_dutycycle R_f (Py.max 0%Q right_actual);
                         set_PWM_dutycycle R_b (Py.max 0%Q (- right_actual)%Q)]) /\
  (c = Spec.Forward ->
   power (self w) = 80 ->
   (fst (balance (self w)) == 12 # 10)%Q ->
   (snd (balance (self w)) == 8 # 10)%Q ->
   (left_actual == 96)%Q /\ (right_actual == 64)%Q /\
   (Py.max 0%Q left_actual == 96)%Q /\ (Py.max 0%Q (- left_actual)%Q == 0)%Q /\
   (Py.max 0%Q right_actual == 64)%Q /\ (Py.max 0%Q (- right_actual)%Q == 0)%Q).
Proof.
  intros Hw p left_actual right_actual. split.
  - rewrite method_is_set_speed. now apply set_speed_runs.
  - intros -> Hp HL HR. subst left_actual right_actual p.
    rewrite Hp. cbn [Spec.signed_speeds fst snd].
    assert (E1 : (inject_Z 80 * fst (balance (self w)) == 96)%Q)
      by (rewrite HL; reflexivity).
    assert (E2 : (inject_Z 80 * snd (balance (self w)) == 64)%Q)
      by (rewrite HR; reflexivity).
    repeat split; try assumption;
      match goal with
      | |- (Py.max ?a ?b == _)%Q =>
          destruct (max_float_cases a b) as [[? ->] | [? ->]]
      end; lra.
Qed.

Lemma balance_scales_signed_speeds_witness :
  let w := set_self (with_balance (12 # 10, 8 # 10)%Q (self (start drive_pins cooked)))
             (start drive_pins cooked) in
  exists d_Lf d_Lb d_Rf d_Rb : Q,
    forward w = (Return tt, after w [set_PWM_dutycycle 12 d_Lf;
                                     set_PWM_dutycycle 13 d_Lb;
                                     set_PWM_dutycycle 18 d_Rf;
                                     set_PWM_dutycycle 19 d_Rb]) /\
    (d_Lf == 96)%Q /\ (d_Lb == 0)%Q /\ (d_Rf == 64)%Q /\ (d_Rb == 0)%Q.
Proof.
  intros w.
  destruct (balance_scales_signed_speeds Spec.Forward w 12 13 18 19)
    as [Hrun Hex].
  - repeat split.
  - destruct Hex as (_ & _ & H1 & H2 & H3 & H4);
      [reflexivity | reflexivity | reflexivity | reflexivity |].
    eexists _, _, _, _. split; [exact Hrun |]. repeat split; assumption.
Defined.

(** C10. A motion command leaves the controller as it was, power and both
    balance factors included, whether it returns or raises; [adjust_power]
    and [adjust_balance] are the methods that change them. *)
Theorem motion_commands_keep_state (c : Spec.command) (w : world) :
  self (snd (method c w)) = self w /\
  tty (snd (method c w)) = tty w /\
  (exists (w0 : world) (delta : Z),
     power (self (snd (adjust_power delta w0))) <> power (self w0)) /\
  (exists (w0 : world) (delta : Q),
     balance (self (snd (adjust_balance delta w0))) <> balance (self w0)).
Proof.
  split; [| split; [| split]].
  - rewrite method_is_set_speed. apply set_speed_keeps_self.
  - rewrite method_is_set_speed.
    unfold set_speed, bind, read, subscript, ret, raise.
    repeat match goal with
      | |- context [Py.get ?d ?k] => destruct (Py.get d k)
      end; try reflexivity;
    repeat (rewrite _apply_pwm_runs; cbn [tty after snd]); reflexivity.
  - exists (start main_pins cooked), 5. discriminate.
  - exists (start main_pins cooked), (1 # 20)%Q. discriminate.
Qed.

(** ** The controller [main] builds *)

(** C1. On the controller [main] builds (pins keyed 'L_A1', 'L_A2', 'R_B1',
    'R_B2') every motion command raises KeyError at [self.pins['L_f']],
    before any duty cycle is written; so does the first 'w' key, and so does
    the [stop] that follows the exit key. *)
Theorem motion_on_main_pins_raises_KeyError
  (c : Spec.command) (fr rg p : Z) (b : Q * Q) (t : termios) (cs : list call) :
  let w := {| self := {| pins := main_pins; freq := fr; pwm_range := rg;
                         power := p; balance := b |};
              tty := t; calls := cs |} in
  method c w = (Raise (KeyError "L_f"), w) /\
  pins (self (start main_pins t)) = main_pins /\
  main t [chars "w"] =
    (Raise (KeyError "L_f"), after (start main_pins t) [print Control_Started]) /\
  main t [chars "x"] =
    (Raise (KeyError "L_f"), after (start main_pins t) [print Control_Started]).
Proof.
  intros w. split; [| repeat split].
  rewrite method_is_set_speed. now apply set_speed_unwired.
Qed.

(** C2. With pins keyed as [set_speed] reads them, four presses of 'k' and
    ten of ',' reach power 100 and left factor 1.5; forward then writes the
    duty cycle 150 to the left forward pin, above the range 100 the pins
    were configured with. *)
Theorem duty_cycle_exceeds_pwm_range :
  let w := snd (main_with drive_pins cooked full_power_left_trim) in
  power (self w) = 100 /\
  balance (self w) = (3 # 2, 1 # 2)%Q /\
  pwm_range (self w) = 100 /\
  In (set_PWM_range 12 100) (calls w) /\
  exists d : Q,
    In (set_PWM_dutycycle 12 d) (calls w) /\
    (d == 150)%Q /\ (inject_Z (pwm_range (self w)) < d)%Q.
Proof.
  vm_compute. repeat split; try tauto.
  exists (300 # 2)%Q. repeat split. tauto.
Qed.

(** C7. On the controller [main] builds the scaled speeds reach no pin.
    [set_speed] multiplies each speed by its balance factor (96 and 64 for
    forward at power 80 and balance (1.2, 0.8)) and then raises KeyError at
    [self.pins['L_f']]: whatever the command, the power and the balance, no
    duty cycle is written; in [main], four presses of ',' and then 'w' end
    with that error and without a single duty cycle. *)
Theorem scaled_speeds_reach_no_pin_on_main_pins
  (c : Spec.command) (fr rg p : Z) (b : Q * Q) (t : termios) (cs : list call) :
  let w := {| self := {| pins := main_pins; freq := fr; pwm_range := rg;
                         power := p; balance := b |};
              tty := t; calls := cs |} in
  let w' := {| self := {| pins := main_pins; freq := fr; pwm_range := rg;
                          power := 80; balance := (12 # 10, 8 # 10)%Q |};
               tty := t; calls := cs |} in
  (inject_Z (power (self w')) * fst (balance (self w')) == 96)%Q /\
  (inject_Z (power (self w')) * snd (balance (self w')) == 64)%Q /\
  forward w' = (Raise (KeyError "L_f"), w') /\
  fst (method c w) = Raise (KeyError "L_f") /\
  calls (snd (method c w)) = cs /\
  fst (main t (presses "," 4 ++ [chars "w"])) = Raise (KeyError "L_f") /\
  filter is_duty (calls (snd (main t (presses "," 4 ++ [chars "w"])))) = [].
Proof.
  intros w w'.
  assert (H : forall c' w0, pins (self w0) = main_pins ->
                method c' w0 = (Raise (KeyError "L_f"), w0)).
  { intros c' w0 E. rewrite method_is_set_speed.
    apply set_speed_unwired. now rewrite E. }
  split; [reflexivity |]. split; [reflexivity |].
  split; [exact (H Spec.Forward w' eq_refl) |].
  rewrite (H c w eq_refl).
  split; [reflexivity |]. split; [reflexivity |].
  split; vm_compute; reflexivity.
Qed.

(** ** The dispatch loop *)

Lemma unbound_key (key : string) :
  ~ In key Spec.recognized -> Py.get actions key = None /\ key <> "x".
Proof.
  intros H. split.
  - unfold actions. cbn [Py.get].
    repeat match goal with
      | |- context [String.eqb key ?k] =>
          destruct (String.eqb_spec key k) as [E | _];
          [exfalso; apply H; rewrite E; simpl; tauto |]
      end.
    reflexivity.
  - intros E. apply H. rewrite E. simpl. tauto.
Qed.

(** C9. A symbol whose canonical form, the lower case that
    [reader.get()] returns, is not in the table is a no-op: the turn of the
    loop returns and goes on, the controller is as it was, and nothing is
    called on the pigpio handle; the one call that may happen is the idle
    sleep, when no character was there. The statement takes [str.lower] as
    it comes, whatever it does to a character, so it covers every symbol a
    terminal can deliver; the loop of [main] is the case [Py.lower]. *)
Theorem unrecognized_symbol_is_no_op
  (lower : string -> string) (reader : KeyReader) (ch : string) (w : world) :
  ~ In (lower ch) Spec.recognized ->
  exists w' : world,
    iteration_by lower reader (chars ch) w = (Return continue, w') /\
    self w' = self w /\
    tty w' = tty w /\
    filter on_pi (calls w') = filter on_pi (calls w) /\
    (w' = w \/ (lower ch = "" /\ w' = after w [time_sleep (1 # 20)])).
Proof.
  intros H. destruct (unbound_key _ H) as [Hget Hx].
  unfold iteration_by, get_by, bind, ret.
  destruct (String.eqb_spec (lower ch) "") as [E | _].
  - exists (after w [time_sleep (1 # 20)]). repeat split.
    + unfold after. cbn [calls]. rewrite filter_app. simpl. apply app_nil_r.
    + right. split; [exact E | reflexivity].
  - destruct (String.eqb_spec (lower ch) "x") as [E | _]; [contradiction |].
    rewrite Hget. exists w. repeat split. now left.
Qed.

Lemma unrecognized_symbol_is_no_op_witness :
  iteration {| fd := 0; orig := cooked |} (chars "Z") (start drive_pins cooked) =
  (Return continue, start drive_pins cooked).
Proof.
  destruct (unrecognized_symbol_is_no_op Py.lower
              {| fd := 0; orig := cooked |} "Z" (start drive_pins cooked))
    as (w' & Hrun & _ & _ & _ & [-> | [E _]]).
  - simpl. intros H. repeat (destruct H as [H | H]; [discriminate H |]). exact H.
  - exact Hrun.
  - discriminate E.
Defined.

(** The KELVIN SIGN is not such a symbol: its lower case is 'k', and the
    turn of the loop raises the power. *)
Lemma KELVIN_SIGN_is_k (reader : KeyReader) (w : world) :
  Py.lower KELVIN_SIGN = "k" /\
  iteration reader (chars KELVIN_SIGN) w = (adjust_power 5 ;; ret continue) w.
Proof. split; reflexivity. Qed.

(** ** Leaving the loop *)

Lemma steady_ret {A} (a : A) : steady (ret a).
Proof. intros w. do 2 (split; [reflexivity |]). exists []. now rewrite app_nil_r. Qed.

Lemma steady_raise {A} (e : exn) : steady (@raise A e).
Proof. intros w. do 2 (split; [reflexivity |]). exists []. now rewrite app_nil_r. Qed.

Lemma steady_read {A} (f : MotorController -> A) : steady (read f).
Proof. intros w. do 2 (split; [reflexivity |]). exists []. now rewrite app_nil_r. Qed.

Lemma steady_write_power (x : Z) : steady (write (with_power x)).
Proof. intros w. do 2 (split; [reflexivity |]). exists []. now rewrite app_nil_r. Qed.

Lemma steady_write_balance (b : Q * Q) : steady (write (with_balance b)).
Proof. intros w. do 2 (split; [reflexivity |]). exists []. now rewrite app_nil_r. Qed.

Lemma steady_emit (c : call) : c <> pi_stop -> steady (emit c).
Proof.
  intros Hc w. do 2 (split; [reflexivity |]). exists [c]. split; [reflexivity |].
  intros [E | []]. congruence.
Qed.

Lemma steady_bind {A B} (m : M A) (k : A -> M B) :
  steady m -> (forall a, steady (k a)) -> steady (bind m k).
Proof.
  intros Hm Hk w. unfold bind.
  destruct (Hm w) as (Hp & Ht & cs & Hc & Hn).
  destruct (m w) as [[a | e |] w1]; cbn [fst snd] in *;
    try (split; [exact Hp | split; [exact Ht | exists cs; now split]]).
  destruct (Hk a w1) as (Hp' & Ht' & cs' & Hc' & Hn').
  do 2 (split; [congruence |]).
  exists (cs ++ cs')%list. split.
  - rewrite Hc', Hc. now rewrite app_assoc.
  - rewrite in_app_iff. tauto.
Qed.

Lemma steady_subscript {V} (d : Py.dict V) (k : string) : steady (subscript d k).
Proof.
  unfold subscript. destruct (Py.get d k); [apply steady_ret | apply steady_raise].
Qed.

Ltac steady :=
  repeat first
    [ apply steady_bind; [| intros ?]
    | apply steady_ret
    | apply steady_raise
    | apply steady_read
    | apply steady_write_power
    | apply steady_write_balance
    | apply steady_subscript
    | apply steady_emit; discriminate ].

Lemma steady_set_speed (left_speed right_speed : Q) :
  steady (set_speed left_speed right_speed).
Proof. unfold set_speed, _apply_pwm. steady. Qed.

Lemma steady_adjust_power (delta : Z) : steady (adjust_power delta).
Proof. unfold adjust_power. steady. Qed.

Lemma steady_adjust_balance (delta : Q) : steady (adjust_balance delta).
Proof. unfold adjust_balance. steady. Qed.

Lemma steady_method (c : Spec.command) : steady (method c).
Proof.
  destruct c; cbn [method];
    unfold forward, backward, turn_left, turn_right, pivot_left, pivot_right, stop;
    steady; apply steady_set_speed.
Qed.

Lemma steady_actions (key : string) (act : M unit) :
  Py.get actions key = Some act -> steady act.
Proof.
  unfold actions. cbn [Py.get].
  repeat match goal with
    | |- context [String.eqb key ?k] => destruct (String.eqb key k)
    end;
    intros E; try discriminate E; injection E as <-;
    first [ apply steady_adjust_power
          | apply steady_adjust_balance
          | apply (steady_method Spec.Forward)
          | apply (steady_method Spec.Backward)
          | apply (steady_method Spec.Turn_left)
          | apply (steady_method Spec.Turn_right)
          | apply (steady_method Spec.Pivot_left)
          | apply (steady_method Spec.Pivot_right)
          | apply (steady_method Spec.Stop) ].
Qed.

Lemma steady_iteration (reader : KeyReader) (input : stdin_read) :
  steady (iteration reader input).
Proof.
  unfold iteration, iteration_by, get_by. apply steady_bind.
  - destruct input; [apply steady_ret | apply steady_raise].
  - intros key.
    destruct (String.eqb key ""); [steady |].
    destruct (String.eqb key "x"); [steady |].
    destruct (Py.get actions key) as [act |] eqn:E; [| steady].
    apply steady_bind; [| intros ?; steady].
    now apply steady_actions with key.
Qed.

Lemma steady_while_True (reader : KeyReader) (stdin : list stdin_read) :
  steady (while_True reader stdin).
Proof.
  induction stdin as [| input later IH]; cbn [while_True].
  - intros w. do 2 (split; [reflexivity |]). exists []. now rewrite app_nil_r.
  - apply steady_bind; [apply steady_iteration |].
    intros [|]; [exact IH | steady].
Qed.

(** The [with] block puts the terminal back whenever it is left, and
    releases nothing. *)
Lemma with_KeyReader_restores {A} (body : KeyReader -> M A) (w : world) :
  (forall reader, steady (body reader)) ->
  pins (self (snd (with_KeyReader body w))) = pins (self w) /\
  (fst (with_KeyReader body w) <> Blocked ->
   tty (snd (with_KeyReader body w)) = tty w) /\
  exists cs : list call,
    calls (snd (with_KeyReader body w)) = (calls w ++ cs)%list /\ ~ In pi_stop cs.
Proof.
  intros Hbody. unfold with_KeyReader, __enter__.
  set (reader := {| fd := 0; orig := tty w |}).
  set (w1 := set_tty (setcbreak (tty w)) w).
  destruct (Hbody reader w1) as (Hp & _ & cs & Hc & Hn).
  destruct (body reader w1) as [[a | e |] w2];
    cbn [fst snd] in *; unfold bind, __exit__, ret, raise; cbn [fst snd];
    (split; [exact Hp | split; [| exists cs; split; [exact Hc | exact Hn]]]).
  - reflexivity.
  - reflexivity.
  - intros H. now contradiction H.
Qed.

Lemma start_has_no_pi_stop (pins0 : Py.dict Z) (t : termios) :
  pins (self (start pins0 t)) = pins0 /\
  tty (start pins0 t) = t /\
  ~ In pi_stop (calls (start pins0 t)).
Proof.
  unfold start, __init__. cbn [tty calls self pins]. do 2 (split; [reflexivity |]).
  intros [E | H]; [discriminate E |].
  unfold Py.items in H. apply in_flat_map in H. destruct H as (item & _ & H).
  unfold configure in H. simpl in H.
  repeat (destruct H as [H | H]; [discriminate H |]). exact H.
Qed.

Lemma session_leaves (pins0 : Py.dict Z) (t : termios) (stdin : list stdin_read) :
  pins (self (snd (session stdin (start pins0 t)))) = pins0 /\
  (fst (session stdin (start pins0 t)) <> Blocked ->
   tty (snd (session stdin (start pins0 t))) = t) /\
  ~ In pi_stop (calls (snd (session stdin (start pins0 t)))).
Proof.
  destruct (start_has_no_pi_stop pins0 t) as (Hp & Ht & Hn).
  unfold session, bind, emit. cbn [fst snd].
  set (w0 := log (print Control_Started) (start pins0 t)).
  destruct (with_KeyReader_restores
              (fun reader => while_True reader stdin) w0
              (fun reader => steady_while_True reader stdin))
    as (Hq & Hr & cs & Hc & Hcs).
  split; [| split].
  - rewrite Hq. exact Hp.
  - intros H. rewrite Hr by exact H. exact Ht.
  - rewrite Hc. subst w0. cbn [calls log].
    rewrite !in_app_iff. intros [[H | [E | []]] | H];
      [now apply Hn | discriminate E | now apply Hcs].
Qed.

Lemma stop_runs (w : world) (L_f L_b R_f R_b : Z) :
  wired (pins (self w)) L_f L_b R_f R_b ->
  stop w = (Return tt, after w [set_PWM_dutycycle L_f 0; set_PWM_dutycycle L_b 0;
                                set_PWM_dutycycle R_f 0; set_PWM_dutycycle R_b 0]).
Proof.
  intros H. unfold stop. rewrite (set_speed_runs 0 0 w L_f L_b R_f R_b H).
  destruct (balance (self w)) as [[ln ld] [rn rd]]. reflexivity.
Qed.

Lemma shutdown_keeps_tty (w : world) : tty (snd (shutdown w)) = tty w.
Proof.
  unfold shutdown, stop, bind, emit.
  destruct (steady_set_speed 0 0 w) as (_ & Ht & _).
  destruct (set_speed 0 0 w) as [[[] | e |] w1]; exact Ht.
Qed.

(** C3, as the program has it. Whenever the [with] block is left, by the
    exit key or by an exception, the terminal is as it was found. The stop
    command and [pi.stop()] stand after the block: an exception that leaves
    the loop ends [main] at once, with the handle not released; after the
    exit key, on a pins mapping that has the keys [set_speed] subscripts,
    the four zero duty cycles are written, then the handle is released. *)
Theorem main_leaves_the_loop
  (pins0 : Py.dict Z) (t : termios) (stdin : list stdin_read) :
  let left := session stdin (start pins0 t) in
  let final := main_with pins0 t stdin in
  (fst left <> Blocked -> tty (snd left) = t) /\
  (fst final <> Blocked -> tty (snd final) = t) /\
  (forall e : exn,
     fst left = Raise e -> final = left /\ ~ In pi_stop (calls (snd final))) /\
  (fst left = Return tt ->
   forall L_f L_b R_f R_b : Z,
     wired pins0 L_f L_b R_f R_b ->
     final =
       (Return tt,
        after (snd left)
          [set_PWM_dutycycle L_f 0; set_PWM_dutycycle L_b 0;
           set_PWM_dutycycle R_f 0; set_PWM_dutycycle R_b 0;
           pi_stop; print Exited])).
Proof.
  intros left final.
  destruct (session_leaves pins0 t stdin) as (Hp & Ht & Hn).
  fold left in Hp, Ht, Hn.
  assert (Hfinal : final = bind (fun _ => left) (fun _ => shutdown) (start pins0 t))
    by reflexivity.
  unfold bind in Hfinal.
  split; [exact Ht |]. split; [| split].
  - rewrite Hfinal. destruct left as [[[] | e |] w1]; cbn [fst snd] in *.
    + intros _. rewrite shutdown_keeps_tty. apply Ht. discriminate.
    + intros _. now apply Ht.
    + intros H. now contradiction H.
  - intros e He. rewrite Hfinal.
    destruct left as [[[] | e' |] w1]; cbn [fst snd] in *; try discriminate He.
    split; [reflexivity | exact Hn].
  - intros Hl L_f L_b R_f R_b Hw. rewrite Hfinal.
    destruct left as [[[] | e' |] w1]; cbn [fst snd] in *; try discriminate Hl.
    unfold shutdown, bind. rewrite <- Hp in Hw.
    rewrite (stop_runs w1 L_f L_b R_f R_b Hw).
    unfold emit. now rewrite !log_after.
Qed.

Lemma main_leaves_the_loop_witness :
  main_with drive_pins cooked [chars "x"] =
    (Return tt,
     after (snd (session [chars "x"] (start drive_pins cooked)))
       [set_PWM_dutycycle 12 0; set_PWM_dutycycle 13 0;
        set_PWM_dutycycle 18 0; set_PWM_dutycycle 19 0;
        pi_stop; print Exited]) /\
  main_with main_pins cooked [interrupted] =
    session [interrupted] (start main_pins cooked) /\
  tty (snd (main_with main_pins cooked [interrupted])) = cooked.
Proof.
  destruct (main_leaves_the_loop drive_pins cooked [chars "x"])
    as (_ & _ & _ & Hreturn).
  destruct (main_leaves_the_loop main_pins cooked [interrupted])
    as (_ & Htty & Hraise & _).
  split; [| split].
  - apply Hreturn; [reflexivity | repeat split].
  - apply (Hraise KeyboardInterrupt). reflexivity.
  - apply Htty. discriminate.
Defined.

(** C3 as the specification has it fails: an interrupt while [main] waits
    for a key leaves the loop with the terminal restored, but no duty cycle
    is written and the pigpio handle is not released. *)
Lemma interrupt_skips_stop_and_release :
  let out := main cooked [interrupted] in
  fst out = Raise KeyboardInterrupt /\
  tty (snd out) = cooked /\
  ~ In pi_stop (calls (snd out)) /\
  (forall (pin : Z) (d : Q), ~ In (set_PWM_dutycycle pin d) (calls (snd out))) /\
  ~ cleaned_up main_pins cooked (snd out).
Proof.
  assert (Hn : ~ In pi_stop (calls (snd (main cooked [interrupted])))).
  { intros H. simpl in H.
    repeat (destruct H as [H | H]; [discriminate H |]). exact H. }
  cbv zeta. repeat split.
  - exact Hn.
  - intros pin d H. simpl in H.
    repeat (destruct H as [H | H]; [discriminate H |]). exact H.
  - intros (_ & H & _). now apply Hn.
Qed.

(** * Further properties of the program *)

(** ** __init__ *)

Lemma configured_at (fr rg : Z) (pins0 : Py.dict Z) (i : nat) (name : string) (pin : Z) :
  nth_error pins0 i = Some (name, pin) ->
  let configured := flat_map (configure fr rg) pins0 in
  nth_error configured (3 * i) = Some (set_mode_OUTPUT pin) /\
  nth_error configured (3 * i + 1) = Some (set_PWM_frequency pin fr) /\
  nth_error configured (3 * i + 2) = Some (set_PWM_range pin rg).
Proof.
  cbv zeta. revert i. induction pins0 as [| item rest IH]; intros i H.
  - destruct i; discriminate H.
  - destruct i as [| j].
    + cbn [nth_error] in H. injection H as ->. repeat split.
    + cbn [nth_error] in H. destruct (IH j H) as (H0 & H1 & H2).
      replace (3 * S j)%nat with (S (S (S (3 * j)))) by lia.
      cbn [flat_map configure app Nat.add nth_error]. auto.
Qed.

(** X1. [__init__] configures every pin of the mapping in the order of the
    mapping, with three calls each: the calls for the pin at place i (from 0)
    are the calls number 3i, 3i+1 and 3i+2, output mode, frequency and
    range; there are 3 calls per pin and no other call, so no duty cycle is
    written. The new controller has power 80, balance (1, 1) and the
    arguments it was given. *)
Theorem init_configures_every_pin (pins0 : Py.dict Z) (fr rg : Z) :
  let configured := fst (__init__ pins0 fr rg) in
  let controller := snd (__init__ pins0 fr rg) in
  length configured = (3 * length pins0)%nat /\
  (forall (i : nat) (name : string) (pin : Z),
     nth_error pins0 i = Some (name, pin) ->
     nth_error configured (3 * i) = Some (set_mode_OUTPUT pin) /\
     nth_error configured (3 * i + 1) = Some (set_PWM_frequency pin fr) /\
     nth_error configured (3 * i + 2) = Some (set_PWM_range pin rg)) /\
  (forall c : call,
     In c configured ->
     is_duty c = false /\ c <> pi_stop /\
     exists name pin, In (name, pin) pins0 /\
       (c = set_mode_OUTPUT pin \/ c = set_PWM_frequency pin fr \/
        c = set_PWM_range pin rg)) /\
  pins controller = pins0 /\ freq controller = fr /\ pwm_range controller = rg /\
  power controller = 80 /\ balance controller = (1, 1)%Q.
Proof.
  cbn [__init__ fst snd pins freq pwm_range power balance]. unfold Py.items.
  split; [| split; [| split; [| repeat split]]].
  - induction pins0 as [| item rest IH]; [reflexivity |].
    cbn [flat_map configure length app]. rewrite IH. cbn [length]. lia.
  - intros i name pin H. now apply (configured_at fr rg pins0 i name pin).
  - intros c H. apply in_flat_map in H. destruct H as ([name pin] & Hin & Hc).
    cbn [configure snd] in Hc.
    assert (Hcase : c = set_mode_OUTPUT pin \/ c = set_PWM_frequency pin fr \/
                    c = set_PWM_range pin rg).
    { destruct Hc as [<- | [<- | [<- | []]]]; auto. }
    split; [| split].
    + destruct Hcase as [-> | [-> | ->]]; reflexivity.
    + destruct Hcase as [-> | [-> | ->]]; discriminate.
    + exists name, pin. auto.
Qed.

Lemma init_configures_every_pin_witness :
  nth_error (fst (__init__ main_pins 50 100)) 6 = Some (set_mode_OUTPUT 18) /\
  nth_error (fst (__init__ main_pins 50 100)) 7 = Some (set_PWM_frequency 18 50) /\
  nth_error (fst (__init__ main_pins 50 100)) 8 = Some (set_PWM_range 18 100).
Proof.
  destruct (init_configures_every_pin main_pins 50 100) as (_ & H & _).
  apply (H 2%nat "R_B1" 18). reflexivity.
Defined.

(** ** set_speed on an incomplete pins mapping *)

(** X2. [set_speed] raises KeyError for the first key it misses, in the
    order 'L_f', 'L_b', 'R_f', 'R_b'. When a key of the left motor is
    missing nothing is written; when a key of the right motor is missing the
    left motor has already been written and stays so. *)
Theorem set_speed_stops_at_first_missing_key
  (left_speed right_speed : Q) (w : world) :
  let p := pins (self w) in
  let left_actual := (left_speed * fst (balance (self w)))%Q in
  (Py.get p "L_f" = None ->
   set_speed left_speed right_speed w = (Raise (KeyError "L_f"), w)) /\
  (Py.get p "L_f" <> None -> Py.get p "L_b" = None ->
   set_speed left_speed right_speed w = (Raise (KeyError "L_b"), w)) /\
  (forall L_f L_b : Z,
     Py.get p "L_f" = Some L_f -> Py.get p "L_b" = Some L_b ->
     Py.get p "R_f" = None ->
     set_speed left_speed right_speed w =
       (Raise (KeyError "R_f"),
        after w [set_PWM_dutycycle L_f (Py.max 0%Q left_actual);
                 set_PWM_dutycycle L_b (Py.max 0%Q (- left_actual)%Q)])) /\
  (forall L_f L_b : Z,
     Py.get p "L_f" = Some L_f -> Py.get p "L_b" = Some L_b ->
     Py.get p "R_f" <> None -> Py.get p "R_b" = None ->
     set_speed left_speed right_speed w =
       (Raise (KeyError "R_b"),
        after w [set_PWM_dutycycle L_f (Py.max 0%Q left_actual);
                 set_PWM_dutycycle L_b (Py.max 0%Q (- left_actual)%Q)])).
Proof.
  cbv zeta. unfold set_speed, bind, read, subscript. cbn [fst snd].
  split; [| split; [| split]].
  - intros ->. reflexivity.
  - intros H1 ->. destruct (Py.get (pins (self w)) "L_f"); [reflexivity | congruence].
  - intros L_f L_b -> -> H3. unfold ret at 1 2. rewrite _apply_pwm_runs.
    cbn [self after]. now rewrite H3.
  - intros L_f L_b -> -> H3 H4. unfold ret at 1 2. rewrite _apply_pwm_runs.
    cbn [self after]. rewrite H4.
    destruct (Py.get (pins (self w)) "R_f"); [reflexivity | congruence].
Qed.

Lemma set_speed_stops_at_first_missing_key_witness :
  let w := start [("L_f", 12); ("L_b", 13); ("R_b", 19)] cooked in
  set_speed 80 80 w =
    (Raise (KeyError "R_f"),
     after w [set_PWM_dutycycle 12 (Py.max 0%Q (80 * 1)%Q);
              set_PWM_dutycycle 13 (Py.max 0%Q (- (80 * 1))%Q)]).
Proof.
  intros w.
  destruct (set_speed_stops_at_first_missing_key 80 80 w) as (_ & _ & H & _).
  apply (H 12 13); reflexivity.
Defined.

(** ** Which pin is driven *)

Lemma duty_of_nonneg (s : Q) :
  (0 <= s)%Q -> (Py.max 0%Q s == s)%Q /\ (Py.max 0%Q (- s)%Q == 0)%Q.
Proof.
  intros H.
  destruct (max_float_cases 0 s) as [[? ->] | [? ->]];
    destruct (max_float_cases 0 (- s)) as [[? ->] | [? ->]]; split; lra.
Qed.

Lemma duty_of_nonpos (s : Q) :
  (s <= 0)%Q -> (Py.max 0%Q s == 0)%Q /\ (Py.max 0%Q (- s)%Q == - s)%Q.
Proof.
  intros H.
  destruct (max_float_cases 0 s) as [[? ->] | [? ->]];
    destruct (max_float_cases 0 (- s)) as [[? ->] | [? ->]]; split; lra.
Qed.

Lemma set_speed_drives
  (left_speed right_speed : Q) (w : world) (L_f L_b R_f R_b : Z) (a b c d : Q) :
  wired (pins (self w)) L_f L_b R_f R_b ->
  (Py.max 0%Q (left_speed * fst (balance (self w))) == a)%Q ->
  (Py.max 0%Q (- (left_speed * fst (balance (self w)))) == b)%Q ->
  (Py.max 0%Q (right_speed * snd (balance (self w))) == c)%Q ->
  (Py.max 0%Q (- (right_speed * snd (balance (self w)))) == d)%Q ->
  fst (set_speed left_speed right_speed w) = Return tt /\
  drives w (snd (set_speed left_speed right_speed w)) L_f L_b R_f R_b a b c d.
Proof.
  intros Hw Ha Hb Hc Hd.
  rewrite (set_speed_runs left_speed right_speed w L_f L_b R_f R_b Hw).
  split; [reflexivity |]. cbn [snd].
  eexists _, _, _, _. split; [reflexivity |]. auto.
Qed.

(** X3. The pin table of the motion commands. On a controller whose pins
    mapping has the four keys, with a power and balance factors that are not
    negative, each command returns after writing, in the order left
    forward, left backward, right forward, right backward: forward
    (p*L, 0, p*R, 0), backward (0, p*L, 0, p*R), turn_left (0, p*L, p*R, 0),
    turn_right (p*L, 0, 0, p*R), pivot_left (p*L, 0, 0, 0), pivot_right
    (0, 0, p*R, 0), stop (0, 0, 0, 0). *)
Theorem motion_commands_pin_table (w : world) (L_f L_b R_f R_b : Z) :
  wired (pins (self w)) L_f L_b R_f R_b ->
  0 <= power (self w) ->
  (0 <= fst (balance (self w)))%Q ->
  (0 <= snd (balance (self w)))%Q ->
  let pL := (inject_Z (power (self w)) * fst (balance (self w)))%Q in
  let pR := (inject_Z (power (self w)) * snd (balance (self w)))%Q in
  let table (c : Spec.command) : Q * Q * Q * Q :=
    match c with
    | Spec.Forward => (pL, 0, pR, 0)
    | Spec.Backward => (0, pL, 0, pR)
    | Spec.Turn_left => (0, pL, pR, 0)
    | Spec.Turn_right => (pL, 0, 0, pR)
    | Spec.Pivot_left => (pL, 0, 0, 0)
    | Spec.Pivot_right => (0, 0, pR, 0)
    | Spec.Stop => (0, 0, 0, 0)
    end%Q in
  forall c : Spec.command,
    fst (method c w) = Return tt /\
    drives w (snd (method c w)) L_f L_b R_f R_b
      (fst (fst (fst (table c)))) (snd (fst (fst (table c))))
      (snd (fst (table c))) (snd (table c)).
Proof.
  intros Hw Hp HL HR. cbv zeta. intros c.
  assert (H0 : (0 <= inject_Z (power (self w)))%Q)
    by (rewrite <- (Zle_Qle 0); exact Hp).
  pose proof (Qmult_le_0_compat _ _ H0 HL) as HpL.
  pose proof (Qmult_le_0_compat _ _ H0 HR) as HpR.
  assert (EL : (inject_Z (- power (self w)) * fst (balance (self w))
                == - (inject_Z (power (self w)) * fst (balance (self w))))%Q)
    by (rewrite inject_Z_opp; ring).
  assert (ER : (inject_Z (- power (self w)) * snd (balance (self w))
                == - (inject_Z (power (self w)) * snd (balance (self w))))%Q)
    by (rewrite inject_Z_opp; ring).
  assert (ZL : (0 * fst (balance (self w)) == 0)%Q) by ring.
  assert (ZR : (0 * snd (balance (self w)) == 0)%Q) by ring.
  rewrite method_is_set_speed.
  destruct c; cbn [Spec.signed_speeds fst snd];
    apply set_speed_drives; try exact Hw;
    match goal with
    | |- (Py.max ?x ?y == _)%Q =>
        destruct (max_float_cases x y) as [[? ->] | [? ->]]
    end; lra.
Qed.

Lemma motion_commands_pin_table_witness :
  drives (start drive_pins cooked) (snd (backward (start drive_pins cooked)))
    12 13 18 19 0 (80 * 1) 0 (80 * 1).
Proof.
  destruct (motion_commands_pin_table (start drive_pins cooked) 12 13 18 19)
    with (c := Spec.Backward) as [_ H].
  - repeat split.
  - simpl. lia.
  - simpl. lra.
  - simpl. lra.
  - exact H.
Defined.

(** ** Adjusting and adjusting back *)

(** X4. [adjust_power(delta)] followed by [adjust_power(-delta)], from a
    power p in [0,100]: the power comes back to p when p + delta stays
    within [0,100]; when the first step saturates at 100 it ends at
    max(0, 100 - delta), which is below p unless p is 0; when the first step
    saturates at 0 it ends at min(100, -delta), which is above p unless p is
    100. *)
Theorem adjust_power_and_back (w : world) (delta : Z) :
  0 <= power (self w) <= 100 ->
  let p := power (self w) in
  let p' := power (self (snd ((adjust_power delta ;; adjust_power (- delta)) w))) in
  (0 <= p + delta <= 100 -> p' = p) /\
  (100 < p + delta -> p' = Z.max 0 (100 - delta) /\ (0 < p -> p' < p)) /\
  (p + delta < 0 -> p' = Z.min 100 (- delta) /\ (p < 100 -> p < p')).
Proof.
  intros Hp. cbv zeta.
  change (power (self (snd ((adjust_power delta ;; adjust_power (- delta)) w))))
    with (Py.max 0 (Py.min 100
            (Py.max 0 (Py.min 100 (power (self w) + delta)) + - delta))).
  rewrite !max_int, !min_int. repeat split; lia.
Qed.

Lemma adjust_power_and_back_witness :
  power (self (snd ((adjust_power 5 ;; adjust_power (- 5)) (start main_pins cooked)))) = 80.
Proof.
  destruct (adjust_power_and_back (start main_pins cooked) 5) as (H & _).
  - simpl. lia.
  - apply H. simpl. lia.
Defined.

Lemma balance_after (delta : Q) (w : world) :
  balance (self (snd (adjust_balance delta w))) =
  (Py.max (1 # 2)%Q (Py.min (3 # 2)%Q (fst (balance (self w)) + delta)%Q),
   Py.max (1 # 2)%Q (Py.min (3 # 2)%Q (snd (balance (self w)) - delta)%Q)).
Proof. reflexivity. Qed.

(** ** Reading keys *)

Lemma lower_char_twice (c : ascii) :
  Py.lower_char (Py.lower_char c) = Py.lower_char c.
Proof. destruct c as [[] [] [] [] [] [] [] []]; reflexivity. Qed.

Lemma lower_char_high (c : ascii) :
  (128 <= N_of_ascii (Py.lower_char c))%N -> Py.lower_char c = c.
Proof. destruct c as [[] [] [] [] [] [] [] []]; vm_compute; intros H; congruence. Qed.

(** Where no KELVIN SIGN begins, [lower] goes on one byte at a time. *)
Lemma lower_step (c : ascii) (t : string) :
  (forall c1 c2 t', t = String c1 (String c2 t') -> Py.is_KELVIN_SIGN c c1 c2 = false) ->
  Py.lower (String c t) = String (Py.lower_char c) (Py.lower t).
Proof.
  intros H. destruct t as [| c1 [| c2 t']]; try reflexivity.
  cbn [Py.lower]. now rewrite (H c1 c2 t' eq_refl).
Qed.

Lemma lower_first (c : ascii) (t : string) :
  exists (d : ascii) (u : string),
    Py.lower (String c t) = String d u /\
    (d = "k"%char \/ d = Py.lower_char c).
Proof.
  destruct t as [| c1 [| c2 t']]; try (eexists _, _; split; [reflexivity | now right]).
  cbn [Py.lower]. destruct (Py.is_KELVIN_SIGN c c1 c2);
    eexists _, _; (split; [reflexivity |]); [now left | now right].
Qed.

Lemma not_KELVIN_SIGN_after_lower (c0 c1 c2 d1 d2 : ascii) (t u : string) :
  Py.is_KELVIN_SIGN c0 c1 c2 = false ->
  Py.lower (String c1 (String c2 t)) = String d1 (String d2 u) ->
  Py.is_KELVIN_SIGN (Py.lower_char c0) d1 d2 = false.
Proof.
  intros Hk E. unfold Py.is_KELVIN_SIGN in *.
  destruct (N.eqb_spec (N_of_ascii (Py.lower_char c0)) 226) as [E0 |]; [| reflexivity].
  destruct (N.eqb_spec (N_of_ascii d1) 132) as [E1 |]; [| reflexivity].
  destruct (N.eqb_spec (N_of_ascii d2) 170) as [E2 |]; [| reflexivity].
  exfalso.
  assert (H0 : Py.lower_char c0 = c0) by (apply lower_char_high; lia).
  rewrite H0 in E0. rewrite E0 in Hk. cbn [N.eqb Pos.eqb andb] in Hk.
  assert (Hd1 : d1 = Py.lower_char c1 /\
                exists u', Py.lower (String c2 t) = String d2 u').
  { destruct t as [| c3 t'].
    - cbn [Py.lower] in E. injection E as <- <- <-. split; [reflexivity |].
      now exists EmptyString.
    - cbn [Py.lower] in E. destruct (Py.is_KELVIN_SIGN c1 c2 c3).
      + injection E as <- _. discriminate E1.
      + injection E as <- E. split; [reflexivity |]. now exists u. }
  destruct Hd1 as [-> (u' & E')].
  assert (H1 : Py.lower_char c1 = c1) by (apply lower_char_high; lia).
  rewrite H1 in E1. rewrite E1 in Hk. cbn [N.eqb Pos.eqb andb] in Hk.
  destruct (lower_first c2 t) as (d & v & Ed & [-> | ->]); rewrite Ed in E';
    injection E' as <- _.
  - discriminate E2.
  - assert (H2 : Py.lower_char c2 = c2) by (apply lower_char_high; lia).
    rewrite H2 in E2. rewrite E2 in Hk. discriminate Hk.
Qed.

Lemma lower_twice_upto (n : nat) (s : string) :
  (String.length s <= n)%nat -> Py.lower (Py.lower s) = Py.lower s.
Proof.
  revert s. induction n as [| n IH]; intros s Hn.
  - destruct s; [reflexivity | cbn in Hn; lia].
  - destruct s as [| c0 [| c1 [| c2 t]]].
    + reflexivity.
    + cbn [Py.lower]. now rewrite lower_char_twice.
    + cbn [Py.lower]. now rewrite !lower_char_twice.
    + cbn [String.length] in Hn.
      change (Py.lower (String c0 (String c1 (String c2 t))))
        with (if Py.is_KELVIN_SIGN c0 c1 c2 then String "k" (Py.lower t)
              else String (Py.lower_char c0) (Py.lower (String c1 (String c2 t)))).
      destruct (Py.is_KELVIN_SIGN c0 c1 c2) eqn:Hk.
      * rewrite lower_step.
        -- rewrite IH by lia. reflexivity.
        -- intros; reflexivity.
      * rewrite lower_step.
        -- rewrite lower_char_twice, IH by (cbn [String.length]; lia). reflexivity.
        -- intros d1 d2 u E.
           now apply (not_KELVIN_SIGN_after_lower c0 c1 c2 d1 d2 t u).
Qed.

Lemma lower_twice (s : string) : Py.lower (Py.lower s) = Py.lower s.
Proof. now apply (lower_twice_upto (String.length s)). Qed.

(** X6. Dispatch does not see the case of a key: a turn of the loop on a
    character and on its lower-case form are the same computation, so 'W'
    is forward, 'K' raises the power and 'X' ends the loop. *)
Theorem dispatch_ignores_case (reader : KeyReader) (ch : string) (w : world) :
  iteration reader (chars ch) w = iteration reader (chars (Py.lower ch)) w /\
  iteration reader (chars "W") w = (forward ;; ret continue) w /\
  iteration reader (chars "K") w = (adjust_power 5 ;; ret continue) w /\
  iteration reader (chars "X") w = (Return break, w).
Proof.
  split; [| repeat split].
  unfold iteration, iteration_by, get_by, bind, ret. now rewrite lower_twice.
Qed.

Lemma while_True_after_exit
  (reader : KeyReader) (ch : string) (before later : list stdin_read) (w : world) :
  Py.lower ch = "x" ->
  while_True reader (before ++ chars ch :: later) w =
  while_True reader (before ++ [chars ch]) w.
Proof.
  intros Hx. revert w. induction before as [| input before IH]; intros w.
  - cbn [app while_True]. unfold iteration, iteration_by, get_by, bind, ret. rewrite Hx. reflexivity.
  - cbn [app while_True]. unfold bind.
    destruct (iteration reader input w) as [[[|] | e |] w1]; auto.
Qed.

(** X7. Nothing that is typed after the exit key is read: [main] on a
    stream of reads is the same as on the stream cut after the first
    'x' or 'X'. *)
Theorem keys_after_exit_are_not_read
  (pins0 : Py.dict Z) (t : termios) (ch : string) (before later : list stdin_read) :
  Py.lower ch = "x" ->
  main_with pins0 t (before ++ chars ch :: later) =
  main_with pins0 t (before ++ [chars ch]).
Proof.
  intros Hx. unfold main_with, session, with_KeyReader, bind.
  cbn [fst snd emit __enter__].
  now rewrite (while_True_after_exit _ ch before later _ Hx).
Qed.

Lemma keys_after_exit_are_not_read_witness :
  main_with drive_pins cooked ([chars "k"] ++ chars "X" :: [chars "w"; interrupted]) =
  main_with drive_pins cooked ([chars "k"] ++ [chars "X"]).
Proof.
  apply keys_after_exit_are_not_read. reflexivity.
Defined.

Lemma while_True_empty_reads
  (reader : KeyReader) (n : nat) (later : list stdin_read) (w : world) :
  while_True reader (presses "" n ++ later) w =
  while_True reader later (after w (repeat (time_sleep (1 # 20)) n)).
Proof.
  revert w. induction n as [| n IH]; intros w.
  - cbn [presses repeat app]. now rewrite after_nil.
  - change (presses "" (S n) ++ later)%list
      with (chars "" :: (presses "" n ++ later))%list.
    cbn [while_True]. unfold bind at 1.
    change (iteration reader (chars "") w)
      with (Return continue, log (time_sleep (1 # 20)) w).
    cbn iota. rewrite IH, log_is_after, after_after. reflexivity.
Qed.

(** X8. Empty reads do not end the loop. While [sys.stdin.read(1)]
    returns the empty string, as it does at end of input, [main] stays in
    the loop: after [n] such reads it is waiting for the next one, the
    terminal still in cbreak mode, and all it has done since the banner is
    to sleep 0.05 s [n] times; empty reads before any other reads only add
    their sleeps. *)
Theorem empty_reads_only_sleep
  (pins0 : Py.dict Z) (t : termios) (n : nat) :
  main_with pins0 t (presses "" n) =
    (Blocked,
     set_tty (setcbreak t)
       (after (start pins0 t)
          (print Control_Started :: repeat (time_sleep (1 # 20)) n))) /\
  (forall (reader : KeyReader) (later : list stdin_read) (w : world),
     while_True reader (presses "" n ++ later) w =
     while_True reader later (after w (repeat (time_sleep (1 # 20)) n))).
Proof.
  split; [| intros; apply while_True_empty_reads].
  unfold main_with, session, with_KeyReader, bind.
  cbn [fst snd emit __enter__].
  rewrite <- (app_nil_r (presses "" n)), while_True_empty_reads.
  cbn [while_True]. unfold set_tty, after, log, start, __init__.
  cbn [self tty calls]. rewrite <- app_assoc. reflexivity.
Qed.

(** ** What every run of main keeps *)

Lemma actions_cases (key : string) (act : M unit) :
  Py.get actions key = Some act ->
  (exists c : Spec.command, act = method c) \/
  (exists delta : Z, (delta = 5 \/ delta = -5) /\ act = adjust_power delta) \/
  (exists delta : Q, (delta = (1 # 20)%Q \/ delta = (- (1 # 20))%Q) /\
                     act = adjust_balance delta).
Proof.
  unfold actions. cbn [Py.get].
  repeat match goal with
    | |- context [String.eqb key ?k] => destruct (String.eqb key k)
    end;
    intros E; try discriminate E; injection E as <-;
    first [ left; solve [ exists Spec.Forward; reflexivity
                        | exists Spec.Backward; reflexivity
                        | exists Spec.Turn_left; reflexivity
                        | exists Spec.Turn_right; reflexivity
                        | exists Spec.Pivot_left; reflexivity
                        | exists Spec.Pivot_right; reflexivity
                        | exists Spec.Stop; reflexivity ]
          | right; left; eexists; split; [| reflexivity]; tauto
          | right; right; eexists; split; [| reflexivity]; tauto ].
Qed.

Section Invariant.

Variable P : world -> Prop.

Hypothesis P_tty : forall (w : world) (t : termios), P w -> P (set_tty t w).
Hypothesis P_log :
  forall (w : world) (c : call), made_by_main c = true -> P w -> P (log c w).
Hypothesis P_method :
  forall (c : Spec.command) (w : world), P w -> P (snd (method c w)).
Hypothesis P_power :
  forall (delta : Z) (w : world),
    delta = 5 \/ delta = -5 -> P w -> P (snd (adjust_power delta w)).
Hypothesis P_balance :
  forall (delta : Q) (w : world),
    delta = (1 # 20)%Q \/ delta = (- (1 # 20))%Q ->
    P w -> P (snd (adjust_balance delta w)).

Lemma actions_keep (key : string) (act : M unit) (w : world) :
  Py.get actions key = Some act -> P w -> P (snd (act w)).
Proof.
  intros H Hw.
  destruct (actions_cases key act H)
    as [[c ->] | [(delta & Hd & ->) | (delta & Hd & ->)]]; auto.
Qed.

Lemma iteration_keeps (reader : KeyReader) (input : stdin_read) (w : world) :
  P w -> P (snd (iteration reader input w)).
Proof.
  intros Hw. unfold iteration, iteration_by, get_by, bind.
  destruct input as [ch |]; [| exact Hw]. unfold ret at 1.
  destruct (String.eqb (Py.lower ch) ""); [now apply P_log |].
  destruct (String.eqb (Py.lower ch) "x"); [exact Hw |].
  destruct (Py.get actions (Py.lower ch)) as [act |] eqn:E; [| exact Hw].
  pose proof (actions_keep _ act w E Hw) as H.
  destruct (act w) as [[[] | e |] w1]; exact H.
Qed.

Lemma while_True_keeps (reader : KeyReader) (stdin : list stdin_read) (w : world) :
  P w -> P (snd (while_True reader stdin w)).
Proof.
  revert w. induction stdin as [| input later IH]; intros w Hw; [exact Hw |].
  cbn [while_True]. unfold bind.
  pose proof (iteration_keeps reader input w Hw) as H.
  destruct (iteration reader input w) as [[[|] | e |] w1]; cbn [snd] in *; auto.
Qed.

Lemma main_keeps (pins0 : Py.dict Z) (t : termios) (stdin : list stdin_read) :
  P (start pins0 t) -> P (snd (main_with pins0 t stdin)).
Proof.
  intros H0. unfold main_with, session, with_KeyReader, bind.
  cbn [fst snd emit __enter__].
  set (reader := {| fd := 0; orig := tty (log (print Control_Started) (start pins0 t)) |}).
  set (w1 := set_tty _ _).
  assert (H1 : P w1) by (apply P_tty, P_log; [reflexivity | exact H0]).
  pose proof (while_True_keeps reader stdin w1 H1) as H2.
  destruct (while_True reader stdin w1) as [[[] | e |] w2]; cbn [snd] in H2.
  - unfold __exit__, ret. cbn [fst snd].
    assert (H3 : P (set_tty (orig reader) w2)) by now apply P_tty.
    unfold shutdown, bind.
    pose proof (P_method Spec.Stop _ H3) as H4. cbn [method] in H4.
    destruct (stop (set_tty (orig reader) w2)) as [[[] | e |] w3];
      cbn [snd] in H4; try exact H4.
    unfold emit. cbn [fst snd]. apply P_log; [reflexivity |].
    apply P_log; [reflexivity | exact H4].
  - unfold __exit__, raise. cbn [fst snd]. now apply P_tty.
  - exact H2.
Qed.

End Invariant.

Lemma method_keeps_self (c : Spec.command) (w : world) :
  self (snd (method c w)) = self w.
Proof. rewrite method_is_set_speed. apply set_speed_keeps_self. Qed.

Lemma adjust_power_in_range (delta : Z) (w : world) :
  delta = 5 \/ delta = -5 ->
  in_range (self w) -> in_range (self (snd (adjust_power delta w))).
Proof.
  intros Hd (Hp & H5 & HL & HR). unfold in_range.
  change (power (self (snd (adjust_power delta w))))
    with (Py.max 0 (Py.min 100 (power (self w) + delta))).
  change (balance (self (snd (adjust_power delta w)))) with (balance (self w)).
  rewrite max_int, min_int. repeat split; try lia; try tauto.
  destruct H5 as [k Hk]. rewrite Hk.
  destruct Hd as [-> | ->].
  - destruct (Z_lt_le_dec (k * 5 + 5) 100).
    + exists (k + 1). lia.
    + exists 20. lia.
  - destruct (Z_lt_le_dec 0 (k * 5 + -5)).
    + exists (k - 1). lia.
    + exists 0. lia.
Qed.

Lemma clamped_in_range (x : Q) :
  (1 # 2 <= Py.max (1 # 2)%Q (Py.min (3 # 2)%Q x) <= 3 # 2)%Q.
Proof.
  destruct (min_float_cases (3 # 2) x) as [[? ->] | [? ->]];
    match goal with
    | |- (_ <= Py.max ?a ?b <= _)%Q =>
        destruct (max_float_cases a b) as [[? ->] | [? ->]]
    end; lra.
Qed.

Lemma adjust_balance_in_range (delta : Q) (w : world) :
  in_range (self w) -> in_range (self (snd (adjust_balance delta w))).
Proof.
  intros (Hp & H5 & _). unfold in_range. rewrite balance_after. cbn [fst snd].
  change (power (self (snd (adjust_balance delta w)))) with (power (self w)).
  repeat split; try tauto; apply clamped_in_range.
Qed.

Lemma adjust_balance_sums_to_2 (delta : Q) (w : world) :
  (fst (balance (self w)) + snd (balance (self w)) == 2)%Q ->
  (fst (balance (self (snd (adjust_balance delta w)))) +
   snd (balance (self (snd (adjust_balance delta w)))) == 2)%Q.
Proof.
  rewrite balance_after. cbn [fst snd].
  set (L := fst (balance (self w))). set (R := snd (balance (self w))).
  intros H.
  rewrite (max_min_clamp (L + delta) (1 # 2) (3 # 2)),
          (max_min_clamp (R - delta) (1 # 2) (3 # 2)) by lra.
  destruct (clamp_cases (L + delta) (1 # 2) (3 # 2))
    as [[? ->] | [(? & ? & ->) | (? & ? & ->)]];
    destruct (clamp_cases (R - delta) (1 # 2) (3 # 2))
      as [[? ->] | [(? & ? & ->) | (? & ? & ->)]]; lra.
Qed.

(** X9. Whatever is typed, [main] keeps the controller within its bounds:
    the power is a multiple of 5 between 0 and 100, each balance factor is
    between 0.5 and 1.5, and the pins mapping, the frequency 50 and the
    range 100 are those of the start. *)
Theorem main_keeps_controller_in_range
  (pins0 : Py.dict Z) (t : termios) (stdin : list stdin_read) :
  let c := self (snd (main_with pins0 t stdin)) in
  0 <= power c <= 100 /\ (5 | power c) /\
  (1 # 2 <= fst (balance c) <= 3 # 2)%Q /\
  (1 # 2 <= snd (balance c) <= 3 # 2)%Q /\
  pins c = pins0 /\ freq c = 50 /\ pwm_range c = 100.
Proof.
  cbv zeta.
  pose (P := fun w : world =>
               in_range (self w) /\ pins (self w) = pins0 /\
               freq (self w) = 50 /\ pwm_range (self w) = 100).
  assert (H : P (snd (main_with pins0 t stdin))).
  { apply main_keeps; subst P; cbv beta.
    - intros w t' H. exact H.
    - intros w c _ H. exact H.
    - intros c w H. now rewrite method_keeps_self.
    - intros delta w Hd (H1 & H2). split; [now apply adjust_power_in_range | exact H2].
    - intros delta w _ (H1 & H2). split; [now apply adjust_balance_in_range | exact H2].
    - unfold in_range. cbn. repeat split; try lia; try lra. exists 16. reflexivity. }
  destruct H as ((H1 & H2 & H3 & H4) & H5 & H6 & H7). tauto.
Qed.

(** X10. In every run of [main] the two balance factors sum to 2: the
    bounds 0.5 and 1.5 are met by both sides in the same step, so the
    clamping never breaks the symmetry of the trim. *)
Theorem main_balance_sums_to_2
  (pins0 : Py.dict Z) (t : termios) (stdin : list stdin_read) :
  let c := self (snd (main_with pins0 t stdin)) in
  (fst (balance c) + snd (balance c) == 2)%Q.
Proof.
  cbv zeta.
  apply (main_keeps
           (fun w => (fst (balance (self w)) + snd (balance (self w)) == 2)%Q)).
  - intros w t' H. exact H.
  - intros w c _ H. exact H.
  - intros c w H. now rewrite method_keeps_self.
  - intros delta w _ H. exact H.
  - intros delta w _ H. now apply adjust_balance_sums_to_2.
  - reflexivity.
Qed.

Lemma duty_within (s : Q) :
  (- (150) <= s <= 150)%Q ->
  (0 <= Py.max 0%Q s <= 150)%Q /\ (0 <= Py.max 0%Q (- s)%Q <= 150)%Q.
Proof.
  intros H.
  destruct (max_float_cases 0 s) as [[? ->] | [? ->]];
    destruct (max_float_cases 0 (- s)) as [[? ->] | [? ->]]; lra.
Qed.

Lemma set_speed_within (left_speed right_speed : Q) (w : world) :
  (- (150) <= left_speed * fst (balance (self w)) <= 150)%Q ->
  (- (150) <= right_speed * snd (balance (self w)) <= 150)%Q ->
  Forall duty_in_bounds (calls w) ->
  Forall duty_in_bounds (calls (snd (set_speed left_speed right_speed w))).
Proof.
  intros HL HR Hc.
  destruct (duty_within _ HL) as [HL1 HL2].
  destruct (duty_within _ HR) as [HR1 HR2].
  unfold set_speed, bind, read, subscript, ret, raise. cbn [fst snd].
  destruct (Py.get (pins (self w)) "L_f") as [L_f |]; [| exact Hc].
  destruct (Py.get (pins (self w)) "L_b") as [L_b |]; [| exact Hc].
  rewrite _apply_pwm_runs. cbn [self after pins].
  assert (Hleft : Forall duty_in_bounds
                    (calls w ++
                     [set_PWM_dutycycle L_f
                        (Py.max 0%Q (left_speed * fst (balance (self w)))%Q);
                      set_PWM_dutycycle L_b
                        (Py.max 0%Q (- (left_speed * fst (balance (self w))))%Q)])).
  { apply Forall_app. split; [exact Hc |].
    apply Forall_cons; [exact HL1 |]. apply Forall_cons; [exact HL2 |].
    apply Forall_nil. }
  destruct (Py.get (pins (self w)) "R_f") as [R_f |]; [| exact Hleft].
  destruct (Py.get (pins (self w)) "R_b") as [R_b |]; [| exact Hleft].
  rewrite _apply_pwm_runs. cbn [snd after calls].
  apply Forall_app. split; [exact Hleft |].
  apply Forall_cons; [exact HR1 |]. apply Forall_cons; [exact HR2 |].
  apply Forall_nil.
Qed.

Lemma speed_times_factor (x f : Q) :
  (- (100) <= x <= 100)%Q -> (1 # 2 <= f <= 3 # 2)%Q ->
  (- (150) <= x * f <= 150)%Q.
Proof. intros Hx Hf. split; nra. Qed.

Lemma table_speeds_within (c : Spec.command) (p : Z) :
  0 <= p <= 100 ->
  (- (100) <= fst (Spec.signed_speeds c (inject_Z p)) <= 100)%Q /\
  (- (100) <= snd (Spec.signed_speeds c (inject_Z p)) <= 100)%Q.
Proof.
  intros Hp.
  assert (H0 : (0 <= inject_Z p)%Q) by (rewrite <- (Zle_Qle 0); lia).
  assert (H1 : (inject_Z p <= 100)%Q)
    by (change 100%Q with (inject_Z 100); rewrite <- Zle_Qle; lia).
  destruct c; cbn [Spec.signed_speeds fst snd]; split; lra.
Qed.

Lemma method_within (c : Spec.command) (w : world) :
  in_range (self w) ->
  Forall duty_in_bounds (calls w) ->
  Forall duty_in_bounds (calls (snd (method c w))).
Proof.
  intros (Hp & _ & HL & HR) Hc. rewrite method_is_set_speed.
  destruct (table_speeds_within c (power (self w)) Hp) as [H1 H2].
  apply set_speed_within; [| | exact Hc]; now apply speed_times_factor.
Qed.

(** X11. In every run of [main], on any pins mapping, every duty cycle
    written lies between 0 and 150: never negative, and never more than
    one and a half times the greatest power. *)
Theorem main_duty_cycles_within_150
  (pins0 : Py.dict Z) (t : termios) (stdin : list stdin_read) :
  forall (pin : Z) (duty : Q),
    In (set_PWM_dutycycle pin duty) (calls (snd (main_with pins0 t stdin))) ->
    (0 <= duty <= 150)%Q.
Proof.
  pose (P := fun w : world =>
               in_range (self w) /\ Forall duty_in_bounds (calls w)).
  assert (H : P (snd (main_with pins0 t stdin))).
  { apply main_keeps; subst P; cbv beta.
    - intros w t' H. exact H.
    - intros w c Hc (H1 & H2). split; [exact H1 |].
      cbn [log calls]. apply Forall_app. split; [exact H2 |].
      apply Forall_cons; [| apply Forall_nil].
      destruct c; try exact I. discriminate Hc.
    - intros c w (H1 & H2). split.
      + now rewrite method_keeps_self.
      + now apply method_within.
    - intros delta w Hd (H1 & H2). split; [now apply adjust_power_in_range |].
      change (calls (snd (adjust_power delta w)))
        with (calls w ++ [print (Power_line
                (Py.max 0 (Py.min 100 (power (self w) + delta))))])%list.
      apply Forall_app. split; [exact H2 |].
      apply Forall_cons; [exact I | apply Forall_nil].
    - intros delta w _ (H1 & H2). split; [now apply adjust_balance_in_range |].
      change (calls (snd (adjust_balance delta w)))
        with (calls w ++
              [print (Balance_line
                 (fst (balance (self (snd (adjust_balance delta w)))))
                 (snd (balance (self (snd (adjust_balance delta w))))))])%list.
      apply Forall_app. split; [exact H2 |].
      apply Forall_cons; [exact I | apply Forall_nil].
    - split.
      + unfold in_range. cbn. repeat split; try lia; try lra.
        exists 16. reflexivity.
      + unfold start, __init__. cbn [calls]. constructor; [exact I |].
        apply Forall_forall. intros c Hc. unfold Py.items in Hc.
        apply in_flat_map in Hc. destruct Hc as (item & _ & Hc).
        cbn [configure] in Hc.
        destruct Hc as [<- | [<- | [<- | []]]]; exact I. }
  intros pin duty Hin. destruct H as [_ H].
  rewrite Forall_forall in H. exact (H _ Hin).
Qed.

Lemma main_duty_cycles_within_150_witness :
  (0 <= 300 # 2 <= 150)%Q.
Proof.
  apply (main_duty_cycles_within_150 drive_pins cooked full_power_left_trim 12).
  vm_compute. tauto.
Defined.

(** ** A controller with its four keys *)

Lemma action_returns (key : string) (act : M unit) (w : world) (L_f L_b R_f R_b : Z) :
  Py.get actions key = Some act ->
  wired (pins (self w)) L_f L_b R_f R_b ->
  fst (act w) = Return tt.
Proof.
  intros H Hw.
  destruct (actions_cases key act H)
    as [[c ->] | [(delta & _ & ->) | (delta & _ & ->)]]; [| reflexivity | reflexivity].
  rewrite method_is_set_speed.
  now rewrite (set_speed_runs _ _ w L_f L_b R_f R_b Hw).
Qed.

Lemma iteration_returns
  (reader : KeyReader) (ch : string) (w : world) (L_f L_b R_f R_b : Z) :
  wired (pins (self w)) L_f L_b R_f R_b ->
  fst (iteration reader (chars ch) w) =
  Return (if exit_key (chars ch) then break else continue).
Proof.
  intros Hw. unfold iteration, iteration_by, get_by, bind, ret. cbn [exit_key].
  destruct (String.eqb_spec (Py.lower ch) "") as [E | _]; [now rewrite E |].
  destruct (String.eqb (Py.lower ch) "x"); [reflexivity |].
  destruct (Py.get actions (Py.lower ch)) as [act |] eqn:E; [| reflexivity].
  pose proof (action_returns _ act w L_f L_b R_f R_b E Hw) as H.
  destruct (act w) as [[[] | e |] w1]; cbn [fst] in H; try discriminate H.
  reflexivity.
Qed.

Lemma while_True_result
  (reader : KeyReader) (stdin : list stdin_read) (w : world) (L_f L_b R_f R_b : Z) :
  wired (pins (self w)) L_f L_b R_f R_b ->
  ~ In interrupted stdin ->
  fst (while_True reader stdin w) =
    (if existsb exit_key stdin then Return tt else Blocked) /\
  pins (self (snd (while_True reader stdin w))) = pins (self w).
Proof.
  intros Hw Hin. split; [| apply steady_while_True].
  revert w Hw. induction stdin as [| input later IH]; intros w Hw; [reflexivity |].
  destruct input as [ch |]; [| exfalso; apply Hin; now left].
  cbn [while_True existsb]. unfold bind.
  pose proof (iteration_returns reader ch w L_f L_b R_f R_b Hw) as H.
  destruct (steady_iteration reader (chars ch) w) as (Hp & _).
  destruct (iteration reader (chars ch) w) as [[f | e |] w1];
    cbn [fst snd] in *; try discriminate H.
  injection H as ->. cbn [exit_key].
  destruct (String.eqb (Py.lower ch) "x"); cbn [orb]; [reflexivity |].
  apply IH.
  - intros H. apply Hin. now right.
  - now rewrite Hp.
Qed.

(** X12. On a pins mapping that has the four keys, and as long as no read
    is interrupted, no key makes [main] raise: [main] returns exactly when
    an exit key ('x' or 'X') has been read, and is otherwise still waiting
    for a key. *)
Theorem wired_main_ends_on_exit_key_only
  (pins0 : Py.dict Z) (t : termios) (stdin : list stdin_read) (L_f L_b R_f R_b : Z) :
  wired pins0 L_f L_b R_f R_b ->
  ~ In interrupted stdin ->
  fst (main_with pins0 t stdin) =
    if existsb exit_key stdin then Return tt else Blocked.
Proof.
  intros Hw Hin. unfold main_with, session, with_KeyReader, bind.
  cbn [fst snd emit __enter__].
  set (reader := {| fd := 0; orig := tty (log (print Control_Started) (start pins0 t)) |}).
  set (w1 := set_tty _ _).
  assert (Hw1 : wired (pins (self w1)) L_f L_b R_f R_b) by exact Hw.
  destruct (while_True_result reader stdin w1 L_f L_b R_f R_b Hw1 Hin) as [Hr Hp].
  destruct (while_True reader stdin w1) as [[[] | e |] w2];
    cbn [fst snd] in *; rewrite <- Hr; try reflexivity.
  unfold __exit__, ret. cbn [fst snd]. unfold shutdown, bind.
  assert (Hw2 : wired (pins (self (set_tty (orig reader) w2))) L_f L_b R_f R_b)
    by (cbn [set_tty self]; rewrite Hp; exact Hw1).
  now rewrite (stop_runs _ L_f L_b R_f R_b Hw2).
Qed.

Lemma wired_main_ends_on_exit_key_only_witness :
  fst (main_with drive_pins cooked [chars "w"; chars "q"; chars " "]) = Blocked /\
  fst (main_with drive_pins cooked [chars "w"; chars "X"; chars "q"]) = Return tt.
Proof.
  split.
  - apply (wired_main_ends_on_exit_key_only drive_pins cooked
             [chars "w"; chars "q"; chars " "] 12 13 18 19).
    + repeat split.
    + simpl. intros H. repeat (destruct H as [H | H]; [discriminate H |]). exact H.
  - apply (wired_main_ends_on_exit_key_only drive_pins cooked
             [chars "w"; chars "X"; chars "q"] 12 13 18 19).
    + repeat split.
    + simpl. intros H. repeat (destruct H as [H | H]; [discriminate H |]). exact H.
Defined.

(** ** The same key again and again *)

Lemma main_controller (pins0 : Py.dict Z) (t : termios) (stdin : list stdin_read) :
  self (snd (main_with pins0 t stdin)) =
  self (snd (while_True {| fd := 0; orig := t |} stdin
               (set_tty (setcbreak t)
                  (log (print Control_Started) (start pins0 t))))).
Proof.
  unfold main_with, session, with_KeyReader, bind.
  cbn [fst snd emit __enter__].
  change (tty (log (print Control_Started) (start pins0 t))) with t.
  destruct (while_True _ stdin _) as [[[] | e |] w2]; try reflexivity.
  unfold __exit__, ret. cbn [fst snd orig]. unfold shutdown, bind, stop.
  pose proof (set_speed_keeps_self 0 0 (set_tty t w2)) as H.
  destruct (set_speed 0 0 (set_tty t w2)) as [[[] | e |] w3]; exact H.
Qed.

Lemma while_True_power_keys (reader : KeyReader) (n : nat) (w : world) :
  0 <= power (self w) <= 100 ->
  power (self (snd (while_True reader (presses "k" n) w))) =
    Z.min 100 (power (self w) + 5 * Z.of_nat n) /\
  power (self (snd (while_True reader (presses "l" n) w))) =
    Z.max 0 (power (self w) - 5 * Z.of_nat n).
Proof.
  revert w. induction n as [| n IH]; intros w Hp.
  - cbn [presses repeat while_True snd]. lia.
  - assert (H1 : 0 <= power (self (snd (adjust_power 5 w))) <= 100).
    { change (power (self (snd (adjust_power 5 w))))
        with (Py.max 0 (Py.min 100 (power (self w) + 5))).
      rewrite max_int, min_int. lia. }
    assert (H2 : 0 <= power (self (snd (adjust_power (-5) w))) <= 100).
    { change (power (self (snd (adjust_power (-5) w))))
        with (Py.max 0 (Py.min 100 (power (self w) + -5))).
      rewrite max_int, min_int. lia. }
    destruct (IH _ H1) as [IHk _]. destruct (IH _ H2) as [_ IHl].
    split.
    + change (while_True reader (presses "k" (S n)) w)
        with (while_True reader (presses "k" n) (snd (adjust_power 5 w))).
      rewrite IHk.
      change (power (self (snd (adjust_power 5 w))))
        with (Py.max 0 (Py.min 100 (power (self w) + 5))).
      rewrite max_int, min_int. lia.
    + change (while_True reader (presses "l" (S n)) w)
        with (while_True reader (presses "l" n) (snd (adjust_power (-5) w))).
      rewrite IHl.
      change (power (self (snd (adjust_power (-5) w))))
        with (Py.max 0 (Py.min 100 (power (self w) + -5))).
      rewrite max_int, min_int. lia.
Qed.

(** X13. Repeated power keys. From the start, [n] presses of 'k' leave
    the power min(100, 80 + 5n) and [n] presses of 'l' leave
    max(0, 80 - 5n); from any power p in [0,100] the loop leaves
    min(100, p + 5n) and max(0, p - 5n). *)
Theorem power_after_presses (n : nat) :
  (forall (pins0 : Py.dict Z) (t : termios),
     power (self (snd (main_with pins0 t (presses "k" n)))) =
       Z.min 100 (80 + 5 * Z.of_nat n) /\
     power (self (snd (main_with pins0 t (presses "l" n)))) =
       Z.max 0 (80 - 5 * Z.of_nat n)) /\
  (forall (reader : KeyReader) (w : world),
     0 <= power (self w) <= 100 ->
     power (self (snd (while_True reader (presses "k" n) w))) =
       Z.min 100 (power (self w) + 5 * Z.of_nat n) /\
     power (self (snd (while_True reader (presses "l" n) w))) =
       Z.max 0 (power (self w) - 5 * Z.of_nat n)).
Proof.
  split; [| intros; now apply while_True_power_keys].
  intros pins0 t. rewrite !main_controller.
  apply while_True_power_keys. cbn. lia.
Qed.

Lemma power_after_presses_witness :
  power (self (snd (while_True {| fd := 0; orig := cooked |} (presses "k" 7)
                      (start drive_pins cooked)))) = Z.min 100 (80 + 5 * 7).
Proof.
  destruct (power_after_presses 7) as [_ H].
  destruct (H {| fd := 0; orig := cooked |} (start drive_pins cooked)) as [Hk _].
  - cbn. lia.
  - exact Hk.
Defined.

Lemma while_True_more_presses (reader : KeyReader) (n m : nat) (w : world) :
  while_True reader (presses "," (n + m)) w =
    while_True reader (presses "," m) (snd (while_True reader (presses "," n) w)) /\
  while_True reader (presses "." (n + m)) w =
    while_True reader (presses "." m) (snd (while_True reader (presses "." n) w)).
Proof.
  revert w. induction n as [| n IH]; intros w; [split; reflexivity |].
  split.
  - change (while_True reader (presses "," (S n + m)) w)
      with (while_True reader (presses "," (n + m)) (snd (adjust_balance (1 # 20) w))).
    change (while_True reader (presses "," (S n)) w)
      with (while_True reader (presses "," n) (snd (adjust_balance (1 # 20) w))).
    apply IH.
  - change (while_True reader (presses "." (S n + m)) w)
      with (while_True reader (presses "." (n + m))
              (snd (adjust_balance (- (1 # 20)) w))).
    change (while_True reader (presses "." (S n)) w)
      with (while_True reader (presses "." n) (snd (adjust_balance (- (1 # 20)) w))).
    apply IH.
Qed.

Lemma while_True_at_the_bounds (reader : KeyReader) (n : nat) (w : world) :
  (balance (self w) = (3 # 2, 1 # 2)%Q ->
   balance (self (snd (while_True reader (presses "," n) w))) = (3 # 2, 1 # 2)%Q) /\
  (balance (self w) = (1 # 2, 3 # 2)%Q ->
   balance (self (snd (while_True reader (presses "." n) w))) = (1 # 2, 3 # 2)%Q).
Proof.
  revert w. induction n as [| n IH]; intros w; [split; intros H; exact H |].
  split; intros H.
  - change (while_True reader (presses "," (S n)) w)
      with (while_True reader (presses "," n) (snd (adjust_balance (1 # 20) w))).
    apply IH. rewrite balance_after, H. reflexivity.
  - change (while_True reader (presses "." (S n)) w)
      with (while_True reader (presses "." n) (snd (adjust_balance (- (1 # 20)) w))).
    apply IH. rewrite balance_after, H. reflexivity.
Qed.

(** X14. The balance keys saturate. From the start, ten or more presses
    of ',' leave the balance at (1.5, 0.5) and ten or more presses of '.'
    leave it at (0.5, 1.5): the tenth press puts both sides on their bounds
    and further presses change nothing. *)
Theorem balance_saturates_after_ten_presses
  (pins0 : Py.dict Z) (t : termios) (n : nat) :
  (10 <= n)%nat ->
  balance (self (snd (main_with pins0 t (presses "," n)))) = (3 # 2, 1 # 2)%Q /\
  balance (self (snd (main_with pins0 t (presses "." n)))) = (1 # 2, 3 # 2)%Q.
Proof.
  intros Hn. replace n with (10 + (n - 10))%nat by lia.
  rewrite !main_controller.
  destruct (while_True_more_presses {| fd := 0; orig := t |} 10 (n - 10)
              (set_tty (setcbreak t)
                 (log (print Control_Started) (start pins0 t)))) as [-> ->].
  split; apply while_True_at_the_bounds; vm_compute; reflexivity.
Qed.

Lemma balance_saturates_after_ten_presses_witness :
  balance (self (snd (main_with drive_pins cooked (presses "," 15)))) =
    (3 # 2, 1 # 2)%Q.
Proof.
  apply (balance_saturates_after_ten_presses drive_pins cooked 15).
  repeat constructor.
Defined.

(** ** While the loop runs *)

Lemma set_speed_is_not_blocked (left_speed right_speed : Q) (w : world) :
  fst (set_speed left_speed right_speed w) <> Blocked.
Proof.
  unfold set_speed, bind, read, subscript, ret, raise. cbn [fst snd].
  destruct (Py.get (pins (self w)) "L_f"); [| discriminate].
  destruct (Py.get (pins (self w)) "L_b"); [| discriminate].
  rewrite _apply_pwm_runs. cbn [self after pins].
  destruct (Py.get (pins (self w)) "R_f"); [| discriminate].
  destruct (Py.get (pins (self w)) "R_b"); [| discriminate].
  rewrite _apply_pwm_runs. discriminate.
Qed.

(** X15. While [main] is in its loop the terminal is in cbreak mode: as
    long as the program has neither returned nor raised, whatever has been
    typed, echo and line editing are off. *)
Theorem terminal_is_cbreak_in_the_loop
  (pins0 : Py.dict Z) (t : termios) (stdin : list stdin_read) :
  fst (main_with pins0 t stdin) = Blocked ->
  tty (snd (main_with pins0 t stdin)) = {| ECHO := false; ICANON := false |}.
Proof.
  unfold main_with, session, with_KeyReader, bind.
  cbn [fst snd emit __enter__].
  set (reader := {| fd := 0; orig := tty (log (print Control_Started) (start pins0 t)) |}).
  set (w1 := set_tty _ _).
  destruct (steady_while_True reader stdin w1) as (_ & Ht & _).
  destruct (while_True reader stdin w1) as [[[] | e |] w2]; cbn [fst snd] in *.
  - unfold __exit__, ret. cbn [fst snd]. unfold shutdown, bind, stop.
    pose proof (set_speed_is_not_blocked 0 0 (set_tty (orig reader) w2)) as H.
    destruct (set_speed 0 0 (set_tty (orig reader) w2)) as [[[] | e |] w3];
      cbn [fst snd emit]; try discriminate. intros _. now contradiction H.
  - discriminate.
  - intros _. rewrite Ht. reflexivity.
Qed.

Lemma terminal_is_cbreak_in_the_loop_witness :
  tty (snd (main cooked [chars "k"; chars ","])) =
    {| ECHO := false; ICANON := false |}.
Proof.
  apply (terminal_is_cbreak_in_the_loop main_pins cooked [chars "k"; chars ","]).
  reflexivity.
Defined.

Lemma shown_power_app (cs ds : list call) (p : Z) :
  shown_power (cs ++ ds) p = shown_power ds (shown_power cs p).
Proof.
  revert p. induction cs as [| c cs IH]; intros p; [reflexivity |].
  destruct c as [| | | | | | | []]; cbn [app shown_power]; apply IH.
Qed.

Lemma shown_balance_app (cs ds : list call) (b : Q * Q) :
  shown_balance (cs ++ ds) b = shown_balance ds (shown_balance cs b).
Proof.
  revert b. induction cs as [| c cs IH]; intros b; [reflexivity |].
  destruct c as [| | | | | | | []]; cbn [app shown_balance]; apply IH.
Qed.

Lemma set_speed_calls (left_speed right_speed : Q) (w : world) :
  exists cs : list call,
    calls (snd (set_speed left_speed right_speed w)) = (calls w ++ cs)%list /\
    Forall (fun c => is_duty c = true) cs.
Proof.
  unfold set_speed, bind, read, subscript, ret, raise. cbn [fst snd].
  destruct (Py.get (pins (self w)) "L_f");
    [| exists []; split; [now rewrite app_nil_r | constructor]].
  destruct (Py.get (pins (self w)) "L_b");
    [| exists []; split; [now rewrite app_nil_r | constructor]].
  rewrite _apply_pwm_runs. cbn [self after pins].
  destruct (Py.get (pins (self w)) "R_f");
    [| eexists; split; [reflexivity | repeat constructor]].
  destruct (Py.get (pins (self w)) "R_b");
    [| eexists; split; [reflexivity | repeat constructor]].
  rewrite _apply_pwm_runs. cbn [snd after calls]. rewrite <- app_assoc.
  eexists; split; [reflexivity | repeat constructor].
Qed.

Lemma shown_past_duties (cs : list call) (p : Z) (b : Q * Q) :
  Forall (fun c => is_duty c = true) cs ->
  shown_power cs p = p /\ shown_balance cs b = b.
Proof.
  induction 1 as [| c cs Hc _ IH]; [split; reflexivity |].
  destruct c; try discriminate Hc. exact IH.
Qed.

(** X16. The status lines are up to date. In every run of [main] the
    power is the one of the last power line printed, or 80 when none was
    printed, and the balance is the one of the last balance line printed,
    or (1, 1) when none was printed. *)
Theorem status_lines_show_the_state
  (pins0 : Py.dict Z) (t : termios) (stdin : list stdin_read) :
  let w := snd (main_with pins0 t stdin) in
  power (self w) = shown_power (calls w) 80 /\
  balance (self w) = shown_balance (calls w) (1, 1)%Q.
Proof.
  cbv zeta.
  apply (main_keeps
           (fun w => power (self w) = shown_power (calls w) 80 /\
                     balance (self w) = shown_balance (calls w) (1, 1)%Q)).
  - intros w t' H. exact H.
  - intros w c Hc (H1 & H2). cbn [log self calls].
    rewrite shown_power_app, shown_balance_app, <- H1, <- H2.
    destruct c as [| | | | | | | []]; try discriminate Hc; split; reflexivity.
  - intros c w (H1 & H2). rewrite method_keeps_self, method_is_set_speed.
    destruct (set_speed_calls
                (fst (Spec.signed_speeds c (inject_Z (power (self w)))))
                (snd (Spec.signed_speeds c (inject_Z (power (self w))))) w)
      as (cs & -> & Hcs).
    rewrite shown_power_app, shown_balance_app, <- H1, <- H2.
    destruct (shown_past_duties cs (power (self w)) (balance (self w)) Hcs)
      as [-> ->]. split; reflexivity.
  - intros delta w _ (H1 & H2).
    change (calls (snd (adjust_power delta w)))
      with (calls w ++ [print (Power_line
              (power (self (snd (adjust_power delta w)))))])%list.
    change (balance (self (snd (adjust_power delta w)))) with (balance (self w)).
    rewrite shown_power_app, shown_balance_app, <- H2. split; reflexivity.
  - intros delta w _ (H1 & H2).
    change (calls (snd (adjust_balance delta w)))
      with (calls w ++
            [print (Balance_line
               (fst (balance (self (snd (adjust_balance delta w)))))
               (snd (balance (self (snd (adjust_balance delta w))))))])%list.
    change (power (self (snd (adjust_balance delta w)))) with (power (self w)).
    rewrite shown_power_app, shown_balance_app, <- H1. split; reflexivity.
  - unfold start, __init__. cbn [self calls power balance shown_power shown_balance].
    assert (H : forall (p : Z) (b : Q * Q),
               shown_power (flat_map (configure 50 100) (Py.items pins0)) p = p /\
               shown_balance (flat_map (configure 50 100) (Py.items pins0)) b = b).
    { intros p b. unfold Py.items.
      induction pins0 as [| item rest IH]; [split; reflexivity |].
      cbn [flat_map configure app shown_power shown_balance]. exact IH. }
    destruct (H 80 (1, 1)%Q) as [-> ->]. split; reflexivity.
Qed.
